(** * alpha.js: airdrop status resolver, ordering, change tracker and cache

    A shallow embedding of [src/alpha.js] (a Node/Express service) and the
    properties of its status-normalisation and change-detection pipeline.

    Conventions of the embedding.
    - An instant (the time value of a JS [Date]) is a [Z], milliseconds since
      the epoch; an Invalid Date (time value NaN) is [None].
    - The host's local time zone is a fixed offset [tz], in minutes east of
      UTC (480 for UTC+8); daylight-saving transitions are not modelled.
    - JS strings are [string]s; [===] compares them code unit by code unit.
    - A property of an upstream object is a [JsVal]: [undefined], [null] or
      a string, the shapes the feed's data model allows; the phase is an
      integer or absent.
    - The built-ins of the engine are modelled after ECMAScript and V8 on
      the inputs the pipeline gives them: [new Date] on the strings
      [YYYY-MM-DD] and [YYYY-MM-DDTHH:mm], [Number] on strings of decimal
      digits, [localeCompare] as the host's collation on strings of
      decimal digits, [-] and [:] and on the control characters it ignores,
      [Array.prototype.sort] as a stable sort, [JSON.stringify] on objects
      of strings.  Where a property depends on what [new Date], [Number]
      or [localeCompare] answer, it is stated for strings of those shapes,
      or over any engine.
    - A function that may throw returns a [Completion]; the module's
      global variables and the outside world are passed along explicitly. *)

From Stdlib Require Import ZArith Lia Bool List Ascii String.
From Stdlib Require Import Sorting.Sorted Sorting.Permutation.
Import ListNotations.

Local Open Scope list_scope.
Local Open Scope string_scope.
Local Open Scope Z_scope.

(** ** JavaScript values and truthiness *)

Inductive JsVal : Type :=
| JUndefined
| JNull
| JStr (s : string).

(** [ToBoolean]: [undefined], [null] and the empty string are falsy. *)
Definition truthy (v : JsVal) : bool :=
  match v with
  | JStr s => negb (s =? "")%string
  | _ => false
  end.

(** [v || ''] for a string-or-absent property. *)
Definition or_empty (v : JsVal) : string :=
  match v with
  | JStr s => s
  | _ => ""
  end.

(** ** Decimal digits *)

Definition is_digit (c : ascii) : bool :=
  let n := N_of_ascii c in ((48 <=? n) && (n <=? 57))%N.

Definition digit_val (c : ascii) : Z := Z.of_N (N_of_ascii c) - 48.

Fixpoint all_digits (s : string) : bool :=
  match s with
  | EmptyString => true
  | String c s' => is_digit c && all_digits s'
  end.

Fixpoint digits_value (acc : Z) (s : string) : Z :=
  match s with
  | EmptyString => acc
  | String c s' => digits_value (10 * acc + digit_val c) s'
  end.

Definition digit_char (d : Z) : ascii := ascii_of_N (Z.to_N (48 + d mod 10)).

(** The last [n] decimal digits of [z], most significant first. *)
Fixpoint pad_digits (n : nat) (z : Z) : string :=
  match n with
  | O => EmptyString
  | S n' => pad_digits n' (z / 10) ++ String (digit_char z) EmptyString
  end.

(** ** Time values (ECMAScript, "Time Values and Time Range") *)

Definition msPerMinute : Z := 60000.
Definition msPerHour : Z := 3600000.
Definition msPerDay : Z := 86400000.

(** [TimeClip]: a time value beyond 8.64e15 ms is NaN. *)
Definition TimeClip (t : Z) : option Z :=
  if Z.abs t <=? 8640000000000000 then Some t else None.

Definition Day (t : Z) : Z := t / msPerDay.
Definition TimeWithinDay (t : Z) : Z := t mod msPerDay.

(** Number of days from the epoch to the civil date [y]-[m]-[d] in the
    proleptic Gregorian calendar ([MakeDay]); a day past the end of the
    month runs on into the next one, as in V8. *)
Definition days_from_civil (y m d : Z) : Z :=
  let y' := if m <=? 2 then y - 1 else y in
  let era := y' / 400 in
  let yoe := y' - era * 400 in
  let mp := if 2 <? m then m - 3 else m + 9 in
  let doy := (153 * mp + 2) / 5 + d - 1 in
  let doe := yoe * 365 + yoe / 4 - yoe / 100 + doy in
  era * 146097 + doe - 719468.

(** The civil date of a day number ([YearFromTime], [MonthFromTime],
    [DateFromTime]). *)
Definition civil_from_days (z : Z) : Z * Z * Z :=
  let z' := z + 719468 in
  let era := z' / 146097 in
  let doe := z' - era * 146097 in
  let yoe := (doe - doe / 1460 + doe / 36524 - doe / 146096) / 365 in
  let doy := doe - (365 * yoe + yoe / 4 - yoe / 100) in
  let mp := (5 * doy + 2) / 153 in
  let d := doy - (153 * mp + 2) / 5 + 1 in
  let m := if mp <? 10 then mp + 3 else mp - 9 in
  let y := yoe + era * 400 in
  ((if m <=? 2 then y + 1 else y), m, d).

(** ** The host: local time at a fixed offset *)

Definition LocalTime (tz t : Z) : Z := t + tz * msPerMinute.
Definition UTC (tz t : Z) : Z := t - tz * msPerMinute.

(** The local calendar day an instant falls on. *)
Definition localDay (tz t : Z) : Z := Day (LocalTime tz t).

(** ** The [Date] object: an [option Z] *)

Definition JsDate : Type := option Z.

(** [Number(s)] on the fragment the feed uses: the empty string is 0, a
    string of decimal digits is its value, anything else is NaN ([None]).
    Signs, fractions, exponents, radix prefixes and surrounding white space
    are outside the model. *)
Definition Number (s : string) : option Z :=
  if all_digits s then Some (digits_value 0 s) else None.

(** [x || 0] for a number, or for the [undefined] of a missing component. *)
Definition or_zero (n : option Z) : Z :=
  match n with
  | Some z => z
  | None => 0
  end.

(** [s.split(c)]. *)
Fixpoint split_aux (c : ascii) (cur : string) (s : string) : list string :=
  match s with
  | EmptyString => [cur]
  | String a s' =>
      if Ascii.eqb a c then cur :: split_aux c EmptyString s'
      else split_aux c (cur ++ String a EmptyString) s'
  end.

Definition split (c : ascii) (s : string) : list string :=
  split_aux c EmptyString s.

(** Two decimal digits at offset [i] of [s]. *)
Definition two_digits (i : nat) (s : string) : option Z :=
  let f := substring i 2 s in
  if (String.length f =? 2)%nat && all_digits f then Some (digits_value 0 f)
  else None.

Definition four_digits (i : nat) (s : string) : option Z :=
  let f := substring i 4 s in
  if (String.length f =? 4)%nat && all_digits f then Some (digits_value 0 f)
  else None.

Definition char_at_is (i : nat) (c : ascii) (s : string) : bool :=
  match String.get i s with
  | Some a => Ascii.eqb a c
  | None => false
  end.

(** The date part [YYYY-MM-DD] at the start of [s]: the day number.
    Month 01-12 and day 01-31 are accepted. *)
Definition parse_ymd (s : string) : option Z :=
  match four_digits 0 s, two_digits 5 s, two_digits 8 s with
  | Some y, Some m, Some d =>
      if char_at_is 4 "-" s && char_at_is 7 "-" s
         && (1 <=? m) && (m <=? 12) && (1 <=? d) && (d <=? 31)
      then Some (days_from_civil y m d)
      else None
  | _, _, _ => None
  end.

(** The time part [HH:mm] at offset 11 of [s]: milliseconds within the day.
    Hour 24 is accepted with minute 00 only. *)
Definition parse_hm (s : string) : option Z :=
  match two_digits 11 s, two_digits 14 s with
  | Some h, Some mi =>
      if char_at_is 13 ":" s && (mi <=? 59)
         && ((h <=? 23) || ((h =? 24) && (mi =? 0)))
      then Some (h * msPerHour + mi * msPerMinute)
      else None
  | _, _ => None
  end.

(** [new Date(s)] on the two ISO shapes the pipeline builds: a date-only
    string [YYYY-MM-DD] is read as UTC midnight, a date-time string
    [YYYY-MM-DDTHH:mm] without offset as local time.  Every other string
    gives an Invalid Date. *)
Definition Date_parse (tz : Z) (s : string) : JsDate :=
  match String.length s with
  | 10%nat =>
      match parse_ymd s with
      | Some d => TimeClip (d * msPerDay)
      | None => None
      end
  | 16%nat =>
      match parse_ymd s, parse_hm s with
      | Some d, Some t =>
          if char_at_is 10 "T" s then TimeClip (UTC tz (d * msPerDay + t))
          else None
      | _, _ => None
      end
  | _ => None
  end.

(** [d.getHours()]. *)
Definition getHours (tz t : Z) : Z := TimeWithinDay (LocalTime tz t) / msPerHour.

(** [d.setHours(h)]: the local hour is replaced, the minutes, seconds and
    milliseconds of the local time are kept. *)
Definition setHours1 (tz : Z) (d : JsDate) (h : option Z) : JsDate :=
  match d, h with
  | Some t, Some h =>
      let l := LocalTime tz t in
      TimeClip (UTC tz (Day l * msPerDay + h * msPerHour
                        + TimeWithinDay l mod msPerHour))
  | _, _ => None
  end.

(** [d.setHours(h, m, 0, 0)]. *)
Definition setHours4 (tz : Z) (d : JsDate) (h m : Z) : JsDate :=
  match d with
  | Some t =>
      TimeClip (UTC tz (Day (LocalTime tz t) * msPerDay
                        + h * msPerHour + m * msPerMinute))
  | None => None
  end.

(** The year of an ISO string: four digits from 0 to 9999, otherwise a sign
    and six digits. *)
Definition iso_year (y : Z) : string :=
  if (0 <=? y) && (y <=? 9999) then pad_digits 4 y
  else (if y <? 0 then "-" else "+") ++ pad_digits 6 (Z.abs y).

(** [d.toISOString()], for a valid date: the UTC date and time. *)
Definition toISOString (t : Z) : string :=
  let '(y, m, d) := civil_from_days (Day t) in
  let w := TimeWithinDay t in
  iso_year y ++ "-" ++ pad_digits 2 m ++ "-" ++ pad_digits 2 d ++ "T"
  ++ pad_digits 2 (w / msPerHour) ++ ":"
  ++ pad_digits 2 (w mod msPerHour / msPerMinute) ++ ":"
  ++ pad_digits 2 (w mod msPerMinute / 1000) ++ "."
  ++ pad_digits 3 (w mod 1000) ++ "Z".

(** [d.toTimeString()], for a valid date, up to the seconds: the local clock
    time.  The zone suffix that follows is cut off by every caller. *)
Definition toTimeString (tz t : Z) : string :=
  let w := TimeWithinDay (LocalTime tz t) in
  pad_digits 2 (w / msPerHour) ++ ":"
  ++ pad_digits 2 (w mod msPerHour / msPerMinute) ++ ":"
  ++ pad_digits 2 (w mod msPerMinute / 1000).

(** [s.slice(0, n)]. *)
Definition slice0 (n : nat) (s : string) : string := substring 0 n s.

(** ** Events *)

(** An event of the feed, raw or normalised: the object's properties the
    pipeline reads or writes.  Other properties are carried along by the
    object spread and never looked at. *)
Record Airdrop : Type := mkAirdrop {
  token : JsVal;
  phase : option Z;
  date : JsVal;
  time : JsVal;
  status : JsVal;
  original_status : JsVal
}.

Definition set_date_time (a : Airdrop) (d t : JsVal) : Airdrop :=
  {| token := token a; phase := phase a; date := d; time := t;
     status := status a; original_status := original_status a |}.

Definition set_status (a : Airdrop) (s o : JsVal) : Airdrop :=
  {| token := token a; phase := phase a; date := date a; time := time a;
     status := s; original_status := o |}.

(** ** Completions: a call returns or throws *)

(** The errors that occur: the [RangeError] of [toISOString], the
    [TypeError] of a method call on [undefined], the error of the HTTP
    client, and the [Error] that [fetchDataFromAPI] throws in their place. *)
Inductive JsError : Type :=
| RangeError
| TypeError
| AxiosError
| FetchError.

Inductive Completion (A : Type) : Type :=
| Normal (a : A)
| Throw (e : JsError).

Arguments Normal {A} a.
Arguments Throw {A} e.

Definition bind {A B : Type} (c : Completion A) (k : A -> Completion B)
  : Completion B :=
  match c with
  | Normal a => k a
  | Throw e => Throw e
  end.

Notation "x <- c ;; k" := (bind c (fun x => k))
  (at level 61, c at next level, right associativity).

(** [l.map(f)] for a callback that may throw. *)
Fixpoint mapM {A B : Type} (f : A -> Completion B) (l : list A)
  : Completion (list B) :=
  match l with
  | [] => Normal []
  | a :: l' => b <- f a ;; bs <- mapM f l' ;; Normal (b :: bs)
  end.

(** ** processAirdropStatus *)

Definition completed : JsVal := JStr "completed".
Definition announced : JsVal := JStr "announced".

(** Relational operators on dates: every comparison with NaN is false. *)
Definition date_lt (a b : JsDate) : bool :=
  match a, b with
  | Some x, Some y => x <? y
  | _, _ => false
  end.

Definition date_le (a b : JsDate) : bool :=
  match a, b with
  | Some x, Some y => x <=? y
  | _, _ => false
  end.

Definition getTime_eq (a b : JsDate) : bool :=
  match a, b with
  | Some x, Some y => x =? y
  | _, _ => false
  end.

(** [airdrop.phase === 2]. *)
Definition phase_is_2 (a : Airdrop) : bool :=
  match phase a with
  | Some ph => ph =? 2
  | None => false
  end.

(** Step 1 of the callback: phase 2 adds 18 hours.  [toISOString] throws a
    RangeError on an Invalid Date. *)
Definition shift_phase2 (tz : Z) (a : Airdrop) : Completion Airdrop :=
  if phase_is_2 a then
    if truthy (date a) then
      let baseDate :=
        Date_parse tz (or_empty (date a)
                       ++ (if truthy (time a) then "T" ++ or_empty (time a)
                           else "T00:00")) in
      let baseDate :=
        setHours1 tz baseDate
                  (option_map (fun t => getHours tz t + 18) baseDate) in
      match baseDate with
      | Some t =>
          Normal (set_date_time a (JStr (slice0 10 (toISOString t)))
                                (JStr (slice0 5 (toTimeString tz t))))
      | None => Throw RangeError
      end
    else Normal a
  else Normal a.

(** The [i]-th of the numbers destructured from [time.split(':')]; a
    missing one is [undefined], which [|| 0] turns into 0 as it does NaN. *)
Definition component (i : nat) (parts : list (option Z)) : option Z :=
  match nth_error parts i with
  | Some n => n
  | None => None
  end.

(** Step 2 of the callback: the status, from the (shifted) date and time.
    [today] is the start of the local day of the call, [now] the clock when
    the event is looked at; [raw] is the callback's argument. *)
Definition resolve_status (tz : Z) (today : JsDate) (now : Z)
           (raw p : Airdrop) : Airdrop :=
  if truthy (date p) then
    let airdropDate := setHours4 tz (Date_parse tz (or_empty (date p))) 0 0 in
    if date_lt airdropDate today then
      set_status p completed (status raw)
    else if getTime_eq airdropDate today then
      if truthy (time p) then
        let parts := map Number (split ":" (or_empty (time p))) in
        let hours := component 0 parts in
        let minutes := component 1 parts in
        let airdropDateTime :=
          setHours4 tz (Date_parse tz (or_empty (date p)))
                    (or_zero hours) (or_zero minutes) in
        if date_le airdropDateTime (Some now) then
          set_status p completed (status raw)
        else
          set_status p announced (status raw)
      else
        set_status p announced (status raw)
    else
      set_status p announced (status raw)
  else p.

(** The callback of [airdrops.map]. *)
Definition processAirdrop (tz : Z) (today : JsDate) (now : Z) (airdrop : Airdrop)
  : Completion Airdrop :=
  processedAirdrop <- shift_phase2 tz airdrop ;;
  Normal (resolve_status tz today now airdrop processedAirdrop).

(** [today]: the clock, set back to the start of the local day. *)
Definition startOfToday (tz now : Z) : JsDate := setHours4 tz (Some now) 0 0.

(** The clock is read once per call: the reading behind [today] and the
    readings inside the callback are the same instant [now]. *)
Definition processAirdropStatus (tz now : Z) (airdrops : list Airdrop)
  : Completion (list Airdrop) :=
  let today := startOfToday tz now in
  mapM (processAirdrop tz today now) airdrops.

(** The resolver on one event at instant [now]. *)
Definition resolve (tz now : Z) (airdrop : Airdrop) : Completion Airdrop :=
  processAirdrop tz (startOfToday tz now) now airdrop.

(** ** The callback over any engine *)

(** The callback once more, with the two built-ins that read strings left
    open: [new_Date s] is the [Date] that the engine's [new Date(s)] makes
    on this host, [to_number s] the number that its [Number(s)] makes, NaN
    being [None].  With [Date_parse tz] and [Number] for them this is
    [resolve]. *)
Section Engine.
Variable new_Date : string -> JsDate.
Variable to_number : string -> option Z.

Definition shift_phase2_on (tz : Z) (a : Airdrop) : Completion Airdrop :=
  if phase_is_2 a then
    if truthy (date a) then
      let baseDate :=
        new_Date (or_empty (date a)
                  ++ (if truthy (time a) then "T" ++ or_empty (time a)
                      else "T00:00")) in
      let baseDate :=
        setHours1 tz baseDate
                  (option_map (fun t => getHours tz t + 18) baseDate) in
      match baseDate with
      | Some t =>
          Normal (set_date_time a (JStr (slice0 10 (toISOString t)))
                                (JStr (slice0 5 (toTimeString tz t))))
      | None => Throw RangeError
      end
    else Normal a
  else Normal a.

Definition resolve_status_on (tz : Z) (today : JsDate) (now : Z)
           (raw p : Airdrop) : Airdrop :=
  if truthy (date p) then
    let airdropDate := setHours4 tz (new_Date (or_empty (date p))) 0 0 in
    if date_lt airdropDate today then
      set_status p completed (status raw)
    else if getTime_eq airdropDate today then
      if truthy (time p) then
        let parts := map to_number (split ":" (or_empty (time p))) in
        let hours := component 0 parts in
        let minutes := component 1 parts in
        let airdropDateTime :=
          setHours4 tz (new_Date (or_empty (date p)))
                    (or_zero hours) (or_zero minutes) in
        if date_le airdropDateTime (Some now) then
          set_status p completed (status raw)
        else
          set_status p announced (status raw)
      else
        set_status p announced (status raw)
    else
      set_status p announced (status raw)
  else p.

Definition resolve_on (tz now : Z) (airdrop : Airdrop) : Completion Airdrop :=
  processedAirdrop <- shift_phase2_on tz airdrop ;;
  Normal (resolve_status_on tz (startOfToday tz now) now airdrop
                            processedAirdrop).
End Engine.

(** ** The ordering of fetchDataFromAPI *)

(** The host's default collation (ICU, root rules) compares two strings by
    their keys: the ranks of their code units, without the code units the
    collation ignores.  The model is the collation on strings of decimal
    digits, [-] and [:], which rank [-] < [:] < [0] < ... < [9], and of
    ignored control characters.  Every other code unit is ranked after
    these, in code order; that is not the collation's order of letters,
    white space and the rest of the punctuation, which are outside the
    model. *)

(** The control characters other than tab, line feed, vertical tab, form
    feed and carriage return have no weight in the collation. *)
Definition ignorable (c : ascii) : bool :=
  let n := N_of_ascii c in
  ((n <? 9) || ((13 <? n) && (n <? 32)) || (n =? 127))%N.

Definition collation_rank (c : ascii) : N :=
  if Ascii.eqb c "-" then 1
  else if Ascii.eqb c ":" then 2
  else if is_digit c then (3 + (N_of_ascii c - 48))%N
  else (13 + N_of_ascii c)%N.

Fixpoint collation_key (s : string) : list N :=
  match s with
  | EmptyString => []
  | String c s' =>
      if ignorable c then collation_key s'
      else collation_rank c :: collation_key s'
  end.

(** Keys are compared rank by rank; a key that is the start of another
    comes first. *)
Fixpoint compare_keys (k1 k2 : list N) : comparison :=
  match k1, k2 with
  | [], [] => Eq
  | [], _ :: _ => Lt
  | _ :: _, [] => Gt
  | x :: k1', y :: k2' =>
      match (x ?= y)%N with
      | Eq => compare_keys k1' k2'
      | c => c
      end
  end.

(** [a.localeCompare(b)]: -1, 0 or 1. *)
Definition localeCompare (a b : string) : Z :=
  match compare_keys (collation_key a) (collation_key b) with
  | Lt => -1
  | Eq => 0
  | Gt => 1
  end.

(** The comparator passed to [sort]. *)
Definition compareAirdrops (a b : Airdrop) : Z :=
  let dateA := or_empty (date a) in
  let dateB := or_empty (date b) in
  if negb (dateA =? dateB)%string then localeCompare dateB dateA
  else if negb (truthy (time a)) && truthy (time b) then -1
  else if truthy (time a) && negb (truthy (time b)) then 1
  else if truthy (time a) && truthy (time b) then
    localeCompare (or_empty (time b)) (or_empty (time a))
  else 0.

(** [Array.prototype.sort] is a stable sort, modelled as the stable
    insertion sort.  Where the comparator is a total preorder on the
    elements of the array, as [compareAirdrops] is on events whose dates
    and times have the shapes of the feed, every stable sort returns the
    same array; so does every sort on an array of two elements, when
    swapping the arguments negates the comparator's answer. *)
Section Sort.
Context {A : Type} (cmp : A -> A -> Z).

Fixpoint insert (x : A) (l : list A) : list A :=
  match l with
  | [] => [x]
  | y :: l' => if cmp x y <=? 0 then x :: y :: l' else y :: insert x l'
  end.

Fixpoint sort (l : list A) : list A :=
  match l with
  | [] => []
  | x :: l' => insert x (sort l')
  end.

(** [x] may stand before [y]. *)
Definition cmp_le (x y : A) : Prop := cmp x y <= 0.

(** Two elements the comparator does not tell apart. *)
Definition same_rank (x y : A) : bool :=
  (cmp x y <=? 0) && (cmp y x <=? 0).
End Sort.

Definition sortAirdrops (l : list Airdrop) : list Airdrop :=
  sort compareAirdrops l.

(** ** JSON.stringify, on the objects of generateDataHash *)

Definition dquote : ascii := ascii_of_N 34.
Definition backslash : ascii := ascii_of_N 92.

Definition hex_digit (n : N) : ascii :=
  if (n <? 10)%N then ascii_of_N (48 + n) else ascii_of_N (87 + n).

(** One code unit of [QuoteJSONString]. *)
Definition escape_char (c : ascii) : string :=
  let n := N_of_ascii c in
  if (n =? 8)%N then String backslash "b"
  else if (n =? 9)%N then String backslash "t"
  else if (n =? 10)%N then String backslash "n"
  else if (n =? 12)%N then String backslash "f"
  else if (n =? 13)%N then String backslash "r"
  else if (n =? 34)%N then String backslash (String dquote "")
  else if (n =? 92)%N then String backslash (String backslash "")
  else if (n <? 32)%N then
    String backslash
      ("u00" ++ String (hex_digit (n / 16)) (String (hex_digit (n mod 16)) ""))
  else String c "".

Fixpoint escape (s : string) : string :=
  match s with
  | EmptyString => EmptyString
  | String c s' => escape_char c ++ escape s'
  end.

Definition quote (s : string) : string :=
  String dquote (escape s ++ String dquote "").

(** The JSON text of a property value; an [undefined] one has none. *)
Definition json_value (v : JsVal) : option string :=
  match v with
  | JUndefined => None
  | JNull => Some "null"
  | JStr s => Some (quote s)
  end.

(** The members of an object: the properties that have a JSON text. *)
Fixpoint json_members (props : list (string * JsVal)) : list string :=
  match props with
  | [] => []
  | (k, v) :: props' =>
      match json_value v with
      | Some j => (quote k ++ ":" ++ j) :: json_members props'
      | None => json_members props'
      end
  end.

Definition json_object (props : list (string * JsVal)) : string :=
  "{" ++ String.concat "," (json_members props) ++ "}".

Definition json_array (items : list string) : string :=
  "[" ++ String.concat "," items ++ "]".

(** ** The change tracker *)

(** The body of the feed after processing: the events, and the other
    top-level properties, passed through. *)
Record Payload : Type := mkPayload {
  airdrops : option (list Airdrop);
  others : list (string * JsVal)
}.

(** The object the hash keeps of an event. *)
Definition hash_fields (airdrop : Airdrop) : list (string * JsVal) :=
  [("token", token airdrop); ("status", status airdrop);
   ("date", date airdrop); ("time", time airdrop)].

Definition generateDataHash (data : option Payload) : option string :=
  match data with
  | None => None
  | Some d =>
      match airdrops d with
      | None => None
      | Some l => Some (json_array (map (fun a => json_object (hash_fields a)) l))
      end
  end.

(** Truthiness of [previousDataHash], [null] or a string. *)
Definition hash_truthy (h : option string) : bool :=
  match h with
  | Some s => negb (s =? "")%string
  | None => false
  end.

Definition hash_eqb (a b : option string) : bool :=
  match a, b with
  | Some x, Some y => (x =? y)%string
  | None, None => true
  | _, _ => false
  end.

(** [detectDataChanges]: the answer and the new [previousDataHash]. *)
Definition detectDataChanges (previousDataHash : option string)
           (newData : option Payload) : bool * option string :=
  let newHash := generateDataHash newData in
  if hash_truthy previousDataHash && negb (hash_eqb newHash previousDataHash)
  then (true, previousDataHash)
  else (false, newHash).

(** ** The orchestrator *)

(** What the service sees of the outside: the clock, and the upstream feed
    with a counter of the calls made to it.  The [n]-th call takes some
    time and returns a body or fails.  The clock stands still while code
    runs and moves while the service awaits the feed.  Each operation runs
    to its end: a timer tick falling between a request's [await] and its
    continuation is not modelled. *)
Record World : Type := mkWorld {
  clock : Z;
  upstream_calls : nat;
  upstream : nat -> Z * Completion Payload
}.

(** [await axios.get(url, ...)]. *)
Definition axios_get (w : World) : Completion Payload * World :=
  let '(dt, r) := upstream w (upstream_calls w) in
  (r, {| clock := clock w + dt;
         upstream_calls := S (upstream_calls w);
         upstream := upstream w |}).

(** The body of the [try] of [fetchDataFromAPI].  [airdrops.map] on a
    body without events is a [TypeError]. *)
Definition fetch_and_process (tz : Z) (w : World) : Completion Payload * World :=
  let '(response, w1) := axios_get w in
  (data <- response ;;
   match airdrops data with
   | Some raw =>
       processedAirdrops <- processAirdropStatus tz (clock w1) raw ;;
       Normal {| airdrops := Some (sortAirdrops processedAirdrops);
                 others := others data |}
   | None => Throw TypeError
   end, w1).

(** [fetchDataFromAPI]: whatever is thrown inside is caught and a new
    [Error] is thrown in its place. *)
Definition fetchDataFromAPI (tz : Z) (w : World) : Completion Payload * World :=
  let '(r, w1) := fetch_and_process tz w in
  match r with
  | Normal processedData => (Normal processedData, w1)
  | Throw _ => (Throw FetchError, w1)
  end.

(** The module's global variables. *)
Record Server : Type := mkServer {
  cachedData : option Payload;
  lastFetchTime : option Z;
  previousDataHash : option string
}.

(** [updateData], the body of the timer: a failure is logged and the
    globals are left as they were. *)
Definition updateData (tz : Z) (s : Server) (w : World) : Server * World :=
  let '(r, w1) := fetchDataFromAPI tz w in
  match r with
  | Normal data =>
      let '(hasChanges, h) := detectDataChanges (previousDataHash s) (Some data) in
      ({| cachedData := Some data;
          lastFetchTime := Some (clock w1);
          previousDataHash := h |}, w1)
  | Throw _ => (s, w1)
  end.

(** What [GET /fetch-data] answers: the body with, on a live refresh, the
    properties [hasChanges] and [lastUpdateTime] set on it; or the 500
    answer with its timestamp. *)
Inductive Response : Type :=
| Ok200 (body : Payload) (refreshed : option (bool * string))
| Error500 (timestamp : string).

Definition freshness_window : Z := 5 * 60 * 1000.

(** The test of the handler's first line: the cached body, when there is
    one and it is younger than the window. *)
Definition cache_hit (s : Server) (now : Z) : option Payload :=
  match cachedData s, lastFetchTime s with
  | Some cached, Some t =>
      if now - t <? freshness_window then Some cached else None
  | _, _ => None
  end.

(** The handler of [GET /fetch-data]. *)
Definition fetch_data (tz : Z) (s : Server) (w : World)
  : Response * Server * World :=
  match cache_hit s (clock w) with
  | Some cached => (Ok200 cached None, s, w)
  | None =>
      let '(r, w1) := fetchDataFromAPI tz w in
      match r with
      | Normal data =>
          let '(hasChanges, h) :=
            detectDataChanges (previousDataHash s) (Some data) in
          (Ok200 data (Some (hasChanges, toISOString (clock w1))),
           {| cachedData := Some data;
              lastFetchTime := Some (clock w1);
              previousDataHash := h |}, w1)
      | Throw _ => (Error500 (toISOString (clock w1)), s, w1)
      end
  end.

(** The handler of [GET /last-update]: [lastFetchTime] as an ISO string or
    [null], and [hasCachedData]. *)
Definition last_update (s : Server) : option string * bool :=
  (option_map toISOString (lastFetchTime s),
   match cachedData s with
   | Some _ => true
   | None => false
   end).

(** The period of the timer of [startPolling]. *)
Definition polling_interval : Z := 10 * 60 * 1000.

(** The world when the clock has come to [t]. *)
Definition at_clock (w : World) (t : Z) : World :=
  {| clock := t; upstream_calls := upstream_calls w; upstream := upstream w |}.

(** The callbacks of the timer, one after the other: each runs
    [updateData].  [instants] are the readings of the clock when they
    start; the timer asks for one every [polling_interval]. *)
Fixpoint timer_ticks (tz : Z) (instants : list Z) (s : Server) (w : World)
  : Server * World :=
  match instants with
  | [] => (s, w)
  | t :: instants' =>
      let '(s1, w1) := updateData tz s (at_clock w t) in
      timer_ticks tz instants' s1 w1
  end.

(** [startPolling]: one [updateData] at once, then the timer. *)
Definition startPolling (tz : Z) (instants : list Z) (s : Server) (w : World)
  : Server * World :=
  let '(s1, w1) := updateData tz s w in
  timer_ticks tz instants s1 w1.

(** The globals when the module is loaded. *)
Definition initial_server : Server := mkServer None None None.

(** * The vocabulary of the properties *)

(** The status a call of the resolver ends with. *)
Definition status_of (c : Completion Airdrop) : Completion JsVal :=
  match c with
  | Normal a => Normal (status a)
  | Throw e => Throw e
  end.

(** The clock readings the resolver is run at: those whose local day has a
    start that is a valid date. *)
Definition valid_now (tz now : Z) : Prop :=
  exists t, startOfToday tz now = Some t.

(** Two events without a date that differ in the upstream status. *)
Definition undated_announced : Airdrop :=
  mkAirdrop (JStr "TKN") None JNull JNull (JStr "announced") JUndefined.

Definition undated_completed : Airdrop :=
  mkAirdrop (JStr "TKN") None JNull JNull (JStr "completed") JUndefined.

(** Comparisons of [Z] in hypotheses, from [bool] to [Prop]. *)
Ltac bool_to_Z :=
  repeat match goal with
         | H : (_ <? _) = true |- _ => apply Z.ltb_lt in H
         | H : (_ <? _) = false |- _ => apply Z.ltb_ge in H
         | H : (_ <=? _) = true |- _ => apply Z.leb_le in H
         | H : (_ <=? _) = false |- _ => apply Z.leb_gt in H
         | H : (_ =? _) = true |- _ => apply Z.eqb_eq in H
         | H : (_ =? _) = false |- _ => apply Z.eqb_neq in H
         end.

(** An event whose date no [Date] can be made of. *)
Definition malformed_event : Airdrop :=
  mkAirdrop (JStr "TKN") None (JStr "not-a-date") JNull (JStr "upcoming")
            JUndefined.

(** Noon of 2024-01-01 on a host five hours west of UTC, and an event
    dated the day after, at 10:00. *)
Definition noon_utc_minus_5 : Z := 1704128400000.

Definition event_tomorrow : Airdrop :=
  mkAirdrop (JStr "TKN") None (JStr "2024-01-02") (JStr "10:00")
            (JStr "announced") JUndefined.

(** The phase 2 event of the specification's example. *)
Definition phase2_event : Airdrop :=
  mkAirdrop (JStr "TKN") (Some 2) (JStr "2024-01-01") (JStr "10:00")
            (JStr "announced") JUndefined.

(** The instant of the local date [d] at [h]:[m]. *)
Definition local_instant (tz d h m : Z) : Z :=
  UTC tz (d * msPerDay + h * msPerHour + m * msPerMinute).

(** The hours and minutes read from a time: the first two numbers between
    the colons, with 0 for one that is missing or not a number. *)
Definition time_hours (t : JsVal) : Z :=
  or_zero (component 0 (map Number (split ":" (or_empty t)))).

Definition time_minutes (t : JsVal) : Z :=
  or_zero (component 1 (map Number (split ":" (or_empty t)))).

(** [a >= b] in the code-unit order. *)
Definition string_ge (a b : string) : Prop := String.compare a b <> Lt.

(** [ordered_before a b]: [a] may stand before [b].  Either the date of
    [a] is the later one in the code-unit order, an absent date counting
    as the empty string; or the dates are equal and [a] has no time, or
    both have a time and that of [a] is not the earlier. *)
Definition ordered_before (a b : Airdrop) : Prop :=
  String.compare (or_empty (date a)) (or_empty (date b)) = Gt
  \/ (or_empty (date a) = or_empty (date b)
      /\ (truthy (time a) = false
          \/ (truthy (time a) = true /\ truthy (time b) = true
              /\ string_ge (or_empty (time a)) (or_empty (time b))))).

(** The events of one date that have no time. *)
Definition timeless_on (d : string) (a : Airdrop) : bool :=
  (or_empty (date a) =? d)%string && negb (truthy (time a)).

(** The lexicographic comparison of the specification, by code units, with
    the answers of [localeCompare]; and the comparator of the sort with
    this comparison in the place of the collation. *)
Definition lexical_compare (a b : string) : Z :=
  match String.compare a b with
  | Lt => -1
  | Eq => 0
  | Gt => 1
  end.

Definition compareLexical (a b : Airdrop) : Z :=
  let dateA := or_empty (date a) in
  let dateB := or_empty (date b) in
  if negb (dateA =? dateB)%string then lexical_compare dateB dateA
  else if negb (truthy (time a)) && truthy (time b) then -1
  else if truthy (time a) && negb (truthy (time b)) then 1
  else if truthy (time a) && truthy (time b) then
    lexical_compare (or_empty (time b)) (or_empty (time a))
  else 0.

(** Two code units of one class: two decimal digits, or twice the same
    separator, [-] or [:].  Two strings of one shape: of one length, with
    code units of one class at every place. *)
Definition same_class (x y : ascii) : bool :=
  (is_digit x && is_digit y)
  || (Ascii.eqb x y && (Ascii.eqb x "-" || Ascii.eqb x ":")).

Fixpoint same_shape (a b : string) : bool :=
  match a, b with
  | EmptyString, EmptyString => true
  | String x a', String y b' => same_class x y && same_shape a' b'
  | _, _ => false
  end.

(** The shapes of the data model: a date [YYYY-MM-DD], four, two and two
    decimal digits between hyphens; a time [HH:MM], two and two decimal
    digits around a colon. *)
Definition date_shaped (s : string) : bool := same_shape s "0000-00-00".

Definition time_shaped (s : string) : bool := same_shape s "00:00".

(** An event as the data model has it: its date is absent or of the shape
    [YYYY-MM-DD], its time is absent or of the shape [HH:MM]. *)
Definition well_formed (a : Airdrop) : bool :=
  (negb (truthy (date a)) || date_shaped (or_empty (date a)))
  && (negb (truthy (time a)) || time_shaped (or_empty (time a))).

(** The events with a date, and those without. *)
Definition dated (a : Airdrop) : bool := truthy (date a).

Definition undated (a : Airdrop) : bool := negb (dated a).

(** Two events of one date whose times are not zero-padded alike, and an
    event whose date is one control character. *)
Definition at_one : Airdrop :=
  mkAirdrop (JStr "ONE") None (JStr "2024-01-01") (JStr "1:00")
            (JStr "announced") JUndefined.

Definition at_ten : Airdrop :=
  mkAirdrop (JStr "TEN") None (JStr "2024-01-01") (JStr "10:00")
            (JStr "announced") JUndefined.

Definition control_dated : Airdrop :=
  mkAirdrop (JStr "CTL") None (JStr (String (ascii_of_N 1) "")) JNull
            (JStr "announced") JUndefined.

(** [a] is the start of [b]. *)
Fixpoint is_prefix (a b : string) : bool :=
  match a, b with
  | EmptyString, _ => true
  | String x a', String y b' => Ascii.eqb x y && is_prefix a' b'
  | String _ _, EmptyString => false
  end.

(** The 256 code units of the model. *)
Definition all_ascii : list ascii := map ascii_of_nat (seq 0 256).

(** Unless they are equal, the escape of [c] is not the start of that of
    [c']. *)
Definition prefix_free_at (c c' : ascii) : bool :=
  Ascii.eqb c c' || negb (is_prefix (escape_char c) (escape_char c')).

(** The members of a joined list that stand before and after one of them. *)
Definition joined_before (xs : list string) : string :=
  fold_right (fun x acc => x ++ "," ++ acc)%string "" xs.

Definition joined_after (ys : list string) : string :=
  match ys with
  | [] => ""
  | _ => ("," ++ String.concat "," ys)%string
  end.

(** The event [a] with its status replaced, as a later fetch may show it. *)
Definition with_status (a : Airdrop) (s : JsVal) : Airdrop :=
  set_status a s (original_status a).

(** The fingerprint of a collection. *)
Definition hash_of (l : list Airdrop) (o : list (string * JsVal)) : option string :=
  generateDataHash (Some (mkPayload (Some l) o)).

(** The tuple of an event the fingerprint is made of. *)
Definition hash_tuple (a : Airdrop) : JsVal * JsVal * JsVal * JsVal :=
  (token a, status a, date a, time a).

(** A server with a snapshot taken at noon, and the world one millisecond
    short of five minutes later. *)
Definition sample_payload : Payload :=
  mkPayload (Some [undated_announced]) [].

Definition sample_server : Server :=
  mkServer (Some sample_payload) (Some 1704081600000) None.

Definition sample_world : World :=
  mkWorld 1704081899999 1 (fun _ => (0, Throw AxiosError)).

(** The instant a phase 2 event is moved to: its date and time (or 00:00)
    read as local time, 18 hours later; [None] when no valid date comes
    out. *)
Definition shifted_instant (tz : Z) (a : Airdrop) : JsDate :=
  match Date_parse tz (or_empty (date a)
                       ++ (if truthy (time a) then "T" ++ or_empty (time a)
                           else "T00:00")) with
  | Some t => TimeClip (t + 18 * msPerHour)
  | None => None
  end.

(** The items of a list joined by commas and closed by [close], written
    from one item on; [first] tells that no item stands before. *)
Fixpoint joined_text (close : string) (first : bool) (items : list string) : string :=
  match items with
  | [] => close
  | i :: items' =>
      ((if first then "" else ",") ++ i ++ joined_text close false items')%string
  end.

(** The answers of [detectDataChanges] over a run of fetches, and the
    fingerprint stored after the last. *)
Fixpoint detect_run (previousDataHash : option string)
         (fetches : list (option Payload)) : list bool * option string :=
  match fetches with
  | [] => ([], previousDataHash)
  | d :: fetches' =>
      let '(changed, h) := detectDataChanges previousDataHash d in
      let '(answers, h') := detect_run h fetches' in
      (changed :: answers, h')
  end.

(** The tuples of the events of a body; [None] for no body or a body
    without events. *)
Definition tuples_of (d : option Payload)
  : option (list (JsVal * JsVal * JsVal * JsVal)) :=
  match d with
  | Some p => option_map (map hash_tuple) (airdrops p)
  | None => None
  end.

(** What holds of the globals at any time: nothing is stored, or a body
    is cached with the time it was fetched and a fingerprint; and when the
    events of the cached body are as the data model has them, they are
    sorted. *)
Definition server_ok (s : Server) : Prop :=
  s = initial_server
  \/ exists data l t,
      cachedData s = Some data /\ airdrops data = Some l
      /\ (Forall (fun a => well_formed a = true) l ->
          StronglySorted ordered_before l)
      /\ lastFetchTime s = Some t
      /\ hash_truthy (previousDataHash s) = true.

(** The year of the UTC date of an instant. *)
Definition utc_year (t : Z) : Z := fst (fst (civil_from_days (Day t))).

(** The minute of the local clock time of an instant ([d.getMinutes()]). *)
Definition getMinutes (tz t : Z) : Z :=
  TimeWithinDay (LocalTime tz t) mod msPerHour / msPerMinute.

(** The status of an event of the calendar day [d] with the time [t], at
    [now] on a host at [tz], in the words of the specification. *)
Definition expected_status (tz now d : Z) (t : JsVal) : JsVal :=
  if d <? localDay tz now then completed
  else if d =? localDay tz now then
    if truthy t
       && (local_instant tz d (time_hours t) (time_minutes t) <=? now)
    then completed else announced
  else announced.

(** A time [HH:MM] written with two digits each way. *)
Definition hh_mm (h m : Z) : string := pad_digits 2 h ++ ":" ++ pad_digits 2 m.

(** What the time of an event says: nothing, the time being absent; or an
    hour and a minute, the time being these two written as [HH:MM]. *)
Definition reads_as (t : JsVal) (c : option (Z * Z)) : Prop :=
  match c with
  | None => truthy t = false
  | Some (h, m) => 0 <= h <= 99 /\ 0 <= m <= 99 /\ t = JStr (hh_mm h m)
  end.

(** The status of an event of the calendar day [d], with no time or at the
    hour and minute [c], at [now] on a host at [tz], in the words of the
    specification. *)
Definition status_at (tz now d : Z) (c : option (Z * Z)) : JsVal :=
  if d <? localDay tz now then completed
  else if d =? localDay tz now then
    match c with
    | Some (h, m) =>
        if local_instant tz d h m <=? now then completed else announced
    | None => announced
    end
  else announced.

(** A feed that answers two events after 250 ms, and a server that
    cached [sample_payload] ten minutes before and kept its fingerprint. *)
Definition sample_feed : World :=
  mkWorld 1704081600000 0
          (fun _ => (250, Normal (mkPayload
                                    (Some [event_tomorrow; undated_announced])
                                    [("source", JStr "feed")]))).

Definition tracking_server : Server :=
  mkServer (Some sample_payload) (Some 1704081000000)
           (hash_of [undated_announced] []).

(** The body that [fetchDataFromAPI] makes of the answer of [sample_feed]. *)
Definition sample_fetched : Payload :=
  Eval vm_compute in
    match fst (fetchDataFromAPI 480 sample_feed) with
    | Normal d => d
    | Throw _ => mkPayload None []
    end.

(** * Properties of the resolver *)

Lemma append_nonempty_l (s t : string) : s <> "" -> (s ++ t)%string <> "".
Proof. destruct s; simpl; [congruence | discriminate]. Qed.

Lemma iso_year_nonempty (y : Z) : iso_year y <> "".
Proof.
  unfold iso_year.
  destruct ((0 <=? y) && (y <=? 9999)).
  - simpl. discriminate.
  - destruct (y <? 0); simpl; discriminate.
Qed.

Lemma toISOString_nonempty (t : Z) : toISOString t <> "".
Proof.
  unfold toISOString.
  destruct (civil_from_days (Day t)) as [[y m] d].
  apply append_nonempty_l, iso_year_nonempty.
Qed.

Lemma shifted_date_truthy (t : Z) :
  truthy (JStr (slice0 10 (toISOString t))) = true.
Proof.
  pose proof (toISOString_nonempty t) as H.
  destruct (toISOString t) as [|c r]; [congruence | reflexivity].
Qed.

(** The time shift keeps a date present or absent as it was. *)
Lemma shift_phase2_truthy (tz : Z) (a p : Airdrop) :
  shift_phase2 tz a = Normal p -> truthy (date p) = truthy (date a).
Proof.
  unfold shift_phase2.
  destruct (phase_is_2 a); [|intros [= <-]; reflexivity].
  destruct (truthy (date a)) eqn:Hd; [|intros [= <-]; exact Hd].
  destruct (setHours1 _ _ _); [|discriminate].
  intros [= <-]. apply shifted_date_truthy.
Qed.

(** An event whose phase is not 2 keeps its date and time. *)
Lemma shift_phase2_other (tz : Z) (a : Airdrop) :
  phase_is_2 a = false -> shift_phase2 tz a = Normal a.
Proof. intros H. unfold shift_phase2. now rewrite H. Qed.

(** With a date present, the status step writes one of the two statuses
    and keeps the status of the callback's argument. *)
Lemma resolve_status_dated (tz : Z) (today : JsDate) (now : Z) (raw p : Airdrop) :
  truthy (date p) = true ->
  original_status (resolve_status tz today now raw p) = status raw
  /\ (status (resolve_status tz today now raw p) = completed
      \/ status (resolve_status tz today now raw p) = announced).
Proof.
  intros Hd. unfold resolve_status. rewrite Hd.
  repeat match goal with
         | |- context [if ?c then _ else _] => destruct c
         end; simpl; auto.
Qed.

(** With no date, the status step returns the event as it is. *)
Lemma resolve_status_undated (tz : Z) (today : JsDate) (now : Z) (raw p : Airdrop) :
  truthy (date p) = false -> resolve_status tz today now raw p = p.
Proof. intros Hd. unfold resolve_status. now rewrite Hd. Qed.

Lemma resolve_status_date_time (tz : Z) (today : JsDate) (now : Z) (raw p : Airdrop) :
  date (resolve_status tz today now raw p) = date p
  /\ time (resolve_status tz today now raw p) = time p.
Proof.
  unfold resolve_status.
  repeat match goal with
         | |- context [if ?c then _ else _] => destruct c
         end; simpl; auto.
Qed.

(** The status written for a dated event is read off its date and time. *)
Lemma resolve_status_depends (tz : Z) (today : JsDate) (now : Z)
      (r1 p1 r2 p2 : Airdrop) :
  date p1 = date p2 -> time p1 = time p2 -> truthy (date p1) = true ->
  status (resolve_status tz today now r1 p1)
  = status (resolve_status tz today now r2 p2).
Proof.
  intros Hd Ht Hp. unfold resolve_status. rewrite <- Hd, <- Ht, Hp.
  repeat match goal with
         | |- context [if ?c then _ else _] => destruct c
         end; reflexivity.
Qed.

(** The time shift reads the phase, the date and the time only. *)
Lemma shift_phase2_depends (tz : Z) (e1 e2 : Airdrop) :
  phase e1 = phase e2 -> date e1 = date e2 -> time e1 = time e2 ->
  match shift_phase2 tz e1, shift_phase2 tz e2 with
  | Normal p1, Normal p2 => date p1 = date p2 /\ time p1 = time p2
  | Throw x, Throw y => x = y
  | _, _ => False
  end.
Proof.
  intros Hp Hd Ht. unfold shift_phase2, phase_is_2.
  rewrite <- Hp, <- Hd, <- Ht.
  destruct (match phase e1 with Some ph => ph =? 2 | None => false end); auto.
  destruct (truthy (date e1)); auto.
  destruct (setHours1 _ _ _); simpl; auto.
Qed.

Lemma startOfToday_mono (tz n1 n2 t1 t2 : Z) :
  n1 <= n2 ->
  startOfToday tz n1 = Some t1 -> startOfToday tz n2 = Some t2 -> t1 <= t2.
Proof.
  intros Hn. unfold startOfToday, setHours4, TimeClip.
  destruct (Z.abs _ <=? _); [|discriminate].
  destruct (Z.abs _ <=? _); [|discriminate].
  intros [= <-] [= <-].
  unfold UTC, Day, LocalTime, msPerDay, msPerHour, msPerMinute.
  assert ((n1 + tz * 60000) / 86400000 <= (n2 + tz * 60000) / 86400000)
    by (apply Z.div_le_mono; lia).
  lia.
Qed.

(** Every reading of a clock after the epoch is a valid one, whatever the
    offset of the host. *)
Lemma valid_now_epoch (tz now : Z) :
  -1440 <= tz <= 1440 -> 0 <= now <= 8640000000000000 -> valid_now tz now.
Proof.
  intros Htz Hnow. unfold valid_now, startOfToday, setHours4, TimeClip.
  destruct (Z.leb_spec
              (Z.abs (UTC tz (Day (LocalTime tz now) * msPerDay
                              + 0 * msPerHour + 0 * msPerMinute)))
              8640000000000000) as [L|L]; [eexists; reflexivity|].
  exfalso. revert L.
  unfold UTC, Day, LocalTime, msPerDay, msPerHour, msPerMinute.
  Z.div_mod_to_equations. lia.
Qed.

(** ** C6 *)

(** C6, as stated, fails: an event without a date comes back as it is, with
    no [original_status] written, while its upstream status is a string. *)
Lemma original_status_undated_counterexample :
  resolve 480 1704081600000 undated_announced = Normal undated_announced
  /\ original_status undated_announced <> status undated_announced.
Proof. split; [reflexivity | discriminate]. Qed.

(** C6, amended: for every raw event with a date present, whenever the
    resolver returns, the output's [original_status] is the raw event's
    upstream status, unmodified, in every branch of the status step. *)
Theorem original_status_preserved (tz now : Z) (e out : Airdrop) :
  truthy (date e) = true ->
  resolve tz now e = Normal out ->
  original_status out = status e.
Proof.
  intros Hd. unfold resolve, processAirdrop.
  destruct (shift_phase2 tz e) as [p|] eqn:Hs; simpl; [|discriminate].
  intros [= <-].
  apply resolve_status_dated.
  rewrite (shift_phase2_truthy _ _ _ Hs). exact Hd.
Qed.

Lemma original_status_preserved_witness :
  original_status
    (mkAirdrop (JStr "TKN") (Some 2) (JStr "2024-01-02") (JStr "04:00")
               (JStr "announced") (JStr "upstream"))
  = JStr "upstream".
Proof.
  apply (original_status_preserved 0 1704110400000
           (mkAirdrop (JStr "TKN") (Some 2) (JStr "2024-01-01") (JStr "10:00")
                      (JStr "upstream") JUndefined));
    reflexivity.
Defined.

(** ** C3 *)

(** C3, as stated, fails: two events without a date that differ in the
    upstream status only come back with different statuses. *)
Lemma status_undated_counterexample :
  phase undated_announced = phase undated_completed
  /\ date undated_announced = date undated_completed
  /\ time undated_announced = time undated_completed
  /\ status_of (resolve 480 1704081600000 undated_announced)
     <> status_of (resolve 480 1704081600000 undated_completed).
Proof. repeat split; discriminate. Qed.

(** C3, amended: for every pair of raw events with a date present that
    agree on phase, date and time, the resolver at the same instant throws
    on both or assigns both the same status; and the status of a dated
    output is a function of its effective date, its effective time and
    [now]: outputs that agree on these two agree on the status. *)
Theorem status_independent_of_upstream (tz now : Z) :
  (forall e1 e2 : Airdrop,
      truthy (date e1) = true ->
      phase e1 = phase e2 -> date e1 = date e2 -> time e1 = time e2 ->
      status_of (resolve tz now e1) = status_of (resolve tz now e2))
  /\ (forall e1 e2 o1 o2 : Airdrop,
         resolve tz now e1 = Normal o1 -> resolve tz now e2 = Normal o2 ->
         truthy (date o1) = true ->
         date o1 = date o2 -> time o1 = time o2 ->
         status o1 = status o2).
Proof.
  split.
  - intros e1 e2 Hd Hp Hdd Ht.
    pose proof (shift_phase2_depends tz e1 e2 Hp Hdd Ht) as H.
    unfold resolve, processAirdrop.
    destruct (shift_phase2 tz e1) as [p1|x] eqn:H1;
      destruct (shift_phase2 tz e2) as [p2|y] eqn:H2;
      simpl; try contradiction; [|congruence].
    destruct H as [Hpd Hpt]. f_equal.
    apply resolve_status_depends; auto.
    rewrite (shift_phase2_truthy _ _ _ H1). exact Hd.
  - intros e1 e2 o1 o2. unfold resolve, processAirdrop.
    destruct (shift_phase2 tz e1) as [p1|]; simpl; [|discriminate].
    destruct (shift_phase2 tz e2) as [p2|]; simpl; [|discriminate].
    intros [= <-] [= <-].
    destruct (resolve_status_date_time tz (startOfToday tz now) now e1 p1)
      as [-> ->].
    destruct (resolve_status_date_time tz (startOfToday tz now) now e2 p2)
      as [-> ->].
    intros Hd Hdd Ht. apply resolve_status_depends; auto.
Qed.

Lemma status_independent_of_upstream_witness :
  status_of (resolve 480 1704081600000
               (mkAirdrop (JStr "TKN") None (JStr "2024-01-01") (JStr "12:00")
                          (JStr "announced") JUndefined))
  = status_of (resolve 480 1704081600000
                 (mkAirdrop (JStr "TKN") None (JStr "2024-01-01") (JStr "12:00")
                            (JStr "cancelled") JUndefined)).
Proof.
  apply (proj1 (status_independent_of_upstream 480 1704081600000));
    reflexivity.
Defined.

(** ** C4 *)

(** The status step is monotonic in the clock, for a fixed shifted event. *)
Lemma resolve_status_mono (tz now1 now2 t1 t2 : Z) (raw p : Airdrop) :
  now1 <= now2 -> t1 <= t2 ->
  status (resolve_status tz (Some t1) now1 raw p) = completed ->
  status (resolve_status tz (Some t2) now2 raw p) = completed.
Proof.
  intros Hn Ht. unfold resolve_status.
  destruct (truthy (date p)); [|auto].
  destruct (setHours4 tz (Date_parse tz (or_empty (date p))) 0 0) as [a|];
    simpl.
  - destruct (a <? t1) eqn:E1; destruct (a <? t2) eqn:E2;
      destruct (a =? t1) eqn:E3; destruct (a =? t2) eqn:E4;
      bool_to_Z; try lia; simpl; auto; try discriminate.
    destruct (truthy (time p)); simpl; [|discriminate].
    destruct (setHours4 tz _ _ _) as [d|]; simpl; [|discriminate].
    destruct (d <=? now1) eqn:E5; destruct (d <=? now2) eqn:E6;
      bool_to_Z; try lia; simpl; auto.
  - discriminate.
Qed.

(** C4: for a fixed raw event and instants [now1 < now2], a status
    [completed] at [now1] is [completed] at [now2]; the resolver never
    gives [completed] at [now1] and [announced] at [now2]. *)
Theorem status_monotonic (tz now1 now2 : Z) (e o1 o2 : Airdrop) :
  valid_now tz now1 -> valid_now tz now2 ->
  now1 < now2 ->
  resolve tz now1 e = Normal o1 ->
  resolve tz now2 e = Normal o2 ->
  (status o1 = completed -> status o2 = completed)
  /\ ~ (status o1 = completed /\ status o2 = announced).
Proof.
  intros [t1 H1] [t2 H2] Hlt. unfold resolve, processAirdrop.
  destruct (shift_phase2 tz e) as [p|]; simpl; [|discriminate].
  rewrite H1, H2. intros [= <-] [= <-].
  assert (Hm : status (resolve_status tz (Some t1) now1 e p) = completed ->
               status (resolve_status tz (Some t2) now2 e p) = completed).
  { apply resolve_status_mono; [lia|].
    apply (startOfToday_mono tz now1 now2); auto; lia. }
  split; [exact Hm|].
  intros [Hc Ha]. rewrite (Hm Hc) in Ha. discriminate.
Qed.

Lemma status_monotonic_witness :
  (status (mkAirdrop (JStr "TKN") None (JStr "2024-01-01") (JStr "12:00")
                     (JStr "completed") (JStr "announced")) = completed ->
   status (mkAirdrop (JStr "TKN") None (JStr "2024-01-01") (JStr "12:00")
                     (JStr "completed") (JStr "announced")) = completed)
  /\ ~ (status (mkAirdrop (JStr "TKN") None (JStr "2024-01-01") (JStr "12:00")
                          (JStr "completed") (JStr "announced")) = completed
        /\ status (mkAirdrop (JStr "TKN") None (JStr "2024-01-01")
                             (JStr "12:00") (JStr "completed")
                             (JStr "announced")) = announced).
Proof.
  apply (status_monotonic 480 1704081600000 1704081660000
           (mkAirdrop (JStr "TKN") None (JStr "2024-01-01") (JStr "12:00")
                      (JStr "announced") JUndefined)).
  - eexists; reflexivity.
  - eexists; reflexivity.
  - lia.
  - reflexivity.
  - reflexivity.
Defined.

(** ** C5 *)

(** C5, as stated, fails: an event dated ['not-a-date'] is not passed
    through as an undated one is; it gets the status [announced] and an
    [original_status]. *)
Lemma malformed_date_counterexample :
  Date_parse 480 "not-a-date" = None
  /\ resolve 480 1704081600000 malformed_event
     = Normal (set_status malformed_event announced (JStr "upcoming"))
  /\ resolve 480 1704081600000 malformed_event <> Normal malformed_event
  /\ resolve 480 1704081600000 (set_date_time malformed_event JNull JNull)
     = Normal (set_date_time malformed_event JNull JNull).
Proof. repeat split; discriminate. Qed.

(** With phase 2 the same date makes the resolver throw: [toISOString] is
    called on the Invalid Date. *)
Lemma malformed_date_phase2_throws :
  resolve 480 1704081600000
          (mkAirdrop (JStr "TKN") (Some 2) (JStr "not-a-date") JNull
                     (JStr "upcoming") JUndefined)
  = Throw RangeError.
Proof. reflexivity. Qed.

(** The callback over the engine of the model is the resolver. *)
Lemma resolve_on_model (tz now : Z) (e : Airdrop) :
  resolve_on (Date_parse tz) Number tz now e = resolve tz now e.
Proof. reflexivity. Qed.

(** C5, amended: for every raw event whose phase is not 2 and whose date is
    a non-empty string that [new Date] does not read, the resolver returns;
    the event takes the last branch of the status step: its status is
    [announced], its [original_status] the upstream status, and nothing
    else changes.  This holds whatever strings the engine's [new Date]
    reads and whatever its [Number] makes of the time: the date is one
    that [new_Date], the engine's own, gives an Invalid Date for. *)
Theorem malformed_date_announced
        (new_Date : string -> JsDate) (to_number : string -> option Z)
        (tz now : Z) (e : Airdrop) (s : string) :
  date e = JStr s -> s <> "" -> new_Date s = None ->
  phase_is_2 e = false ->
  resolve_on new_Date to_number tz now e
  = Normal (set_status e announced (status e)).
Proof.
  intros Hd Hs Hp Hph.
  unfold resolve_on, shift_phase2_on. rewrite Hph. cbn [bind].
  unfold resolve_status_on. rewrite Hd. cbn [truthy or_empty].
  apply String.eqb_neq in Hs. rewrite Hs, Hp. reflexivity.
Qed.

Lemma malformed_date_announced_witness :
  resolve_on (Date_parse 480) Number 480 1704081600000 malformed_event
  = Normal (set_status malformed_event announced (status malformed_event)).
Proof.
  apply (malformed_date_announced (Date_parse 480) Number 480 1704081600000
                                  malformed_event "not-a-date");
    [reflexivity | discriminate | reflexivity | reflexivity].
Defined.

(** ** C1 *)

(** C1 on a host west of UTC: the event's calendar day is strictly later
    than the local day of [now], and the resolver answers [completed].
    [new Date('2024-01-02')] is UTC midnight, the evening of 2024-01-01 in
    local time, and [setHours] moves within that local day. *)
Lemma status_west_of_utc :
  localDay (-300) noon_utc_minus_5 = 19723
  /\ parse_ymd "2024-01-02" = Some 19724
  /\ status_of (resolve (-300) noon_utc_minus_5 event_tomorrow)
     = Normal completed.
Proof. repeat split. Qed.

(** ** C2 *)

(** C2 on a host at UTC+8: 2024-01-01 10:00 plus 18 hours is 2024-01-02
    04:00, and the resolver writes the date 2024-01-01 beside the time
    04:00: [toISOString] gives the UTC date, [toTimeString] the local
    time.  On a host at UTC the two agree. *)
Lemma shift_utc_plus_8 :
  shift_phase2 480 phase2_event
  = Normal (set_date_time phase2_event (JStr "2024-01-01") (JStr "04:00"))
  /\ shift_phase2 0 phase2_event
     = Normal (set_date_time phase2_event (JStr "2024-01-02") (JStr "04:00")).
Proof. split; reflexivity. Qed.

(** ** The day comparison on a host at or east of UTC *)

Lemma is_digit_range (c : ascii) :
  is_digit c = true -> 0 <= digit_val c <= 9.
Proof.
  unfold is_digit, digit_val. intros H.
  apply andb_prop in H. destruct H as [H1 H2].
  apply N.leb_le in H1, H2. lia.
Qed.

Lemma digits_value_nonneg (s : string) (acc : Z) :
  all_digits s = true -> 0 <= acc -> 0 <= digits_value acc s.
Proof.
  revert acc.
  induction s as [|c s IH]; cbn [all_digits digits_value]; intros acc H Ha;
    [exact Ha|].
  apply andb_prop in H. destruct H as [Hc Hs].
  apply IH; [exact Hs|]. pose proof (is_digit_range c Hc). lia.
Qed.

(** A component of the time, after [|| 0], is never negative. *)
Lemma component_nonneg (i : nat) (l : list string) :
  0 <= or_zero (component i (map Number l)).
Proof.
  unfold component.
  destruct (nth_error (map Number l) i) as [[z|]|] eqn:E; simpl; try lia.
  apply nth_error_In, in_map_iff in E. destruct E as [s [E _]].
  unfold Number in E. destruct (all_digits s) eqn:D; [|discriminate].
  injection E as <-. apply digits_value_nonneg; [exact D | lia].
Qed.

Lemma four_digits_range (i : nat) (s : string) (y : Z) :
  four_digits i s = Some y -> 0 <= y <= 9999.
Proof.
  unfold four_digits.
  destruct (substring i 4 s) as [|a [|b [|c [|d [|]]]]];
    cbn [String.length Nat.eqb andb]; try discriminate.
  cbn [all_digits digits_value].
  destruct (is_digit a) eqn:A; [|discriminate].
  destruct (is_digit b) eqn:B; [|discriminate].
  destruct (is_digit c) eqn:C; [|discriminate].
  destruct (is_digit d) eqn:D; [|discriminate].
  cbn [andb]. intros E.
  apply is_digit_range in A, B, C, D.
  assert (G : 0 <= 10 * (10 * (10 * (10 * 0 + digit_val a) + digit_val b)
                         + digit_val c) + digit_val d <= 9999) by lia.
  injection E as <-. exact G.
Qed.

(** The day numbers [new Date] reads: from year 0 to the first days after
    year 9999. *)
Lemma parse_ymd_range (s : string) (d : Z) :
  parse_ymd s = Some d -> -719528 <= d <= 2932927.
Proof.
  unfold parse_ymd.
  destruct (four_digits 0 s) as [y|] eqn:Y; [|discriminate].
  destruct (two_digits 5 s) as [m|]; [|discriminate].
  destruct (two_digits 8 s) as [dd|]; [|discriminate].
  destruct (_ && _) eqn:C; [|discriminate].
  intros E.
  repeat (apply andb_prop in C; destruct C as [C ?]).
  bool_to_Z. apply four_digits_range in Y.
  assert (G : -719528 <= days_from_civil y m dd <= 2932927).
  { unfold days_from_civil.
    destruct (Z.leb_spec m 2); destruct (Z.ltb_spec 2 m);
      Z.div_mod_to_equations; lia. }
  injection E as <-. exact G.
Qed.

Lemma Date_parse_date_only (tz : Z) (s : string) (d : Z) :
  String.length s = 10%nat -> parse_ymd s = Some d ->
  Date_parse tz s = Some (d * msPerDay).
Proof.
  intros L P. unfold Date_parse. rewrite L, P.
  apply parse_ymd_range in P. unfold TimeClip, msPerDay.
  destruct (Z.leb_spec (Z.abs (d * 86400000)) 8640000000000000); [reflexivity|lia].
Qed.

(** East of UTC the local day of UTC midnight is the day itself. *)
Lemma Day_LocalTime_midnight (tz d : Z) :
  0 <= tz < 1440 -> Day (LocalTime tz (d * msPerDay)) = d.
Proof.
  intros H. unfold Day, LocalTime, msPerDay, msPerMinute.
  Z.div_mod_to_equations. lia.
Qed.

Lemma startOfToday_value (tz now t0 : Z) :
  startOfToday tz now = Some t0 ->
  t0 = localDay tz now * msPerDay - tz * msPerMinute.
Proof.
  unfold startOfToday, setHours4, TimeClip, localDay, UTC.
  destruct (Z.abs _ <=? _); [|discriminate]. intros [= <-]. lia.
Qed.

(** On a host at or east of UTC, the status of an event whose effective
    date is a well-formed [YYYY-MM-DD], the calendar day [d], is the one
    the specification states: [completed] before the day of [now],
    [announced] after it; on the day itself [completed] exactly when the
    event has a time and the instant of date and time is at most [now]. *)
Lemma status_by_calendar_day (tz now : Z) (e out : Airdrop) (s : string) (d : Z) :
  0 <= tz < 1440 -> now <= 8640000000000000 -> valid_now tz now ->
  resolve tz now e = Normal out ->
  date out = JStr s -> String.length s = 10%nat -> parse_ymd s = Some d ->
  (d < localDay tz now -> status out = completed)
  /\ (d = localDay tz now -> truthy (time out) = true ->
      (status out = completed
       <-> local_instant tz d (time_hours (time out)) (time_minutes (time out))
           <= now)
      /\ (status out = completed \/ status out = announced))
  /\ (d = localDay tz now -> truthy (time out) = false ->
      status out = announced)
  /\ (localDay tz now < d -> status out = announced).
Proof.
  intros Htz Hnow [t0 Ht0] Hr Hd Hl Hp. revert Hr.
  unfold resolve, processAirdrop.
  rewrite Ht0.
  destruct (shift_phase2 tz e) as [p|]; simpl; [|discriminate].
  intros [= <-].
  destruct (resolve_status_date_time tz (Some t0) now e p) as [Ed Et].
  rewrite Ed in Hd. rewrite Et. clear Ed Et.
  apply startOfToday_value in Ht0.
  pose proof (parse_ymd_range s d Hp) as Hrange.
  pose proof (component_nonneg 0 (split ":" (or_empty (time p)))) as Hh.
  pose proof (component_nonneg 1 (split ":" (or_empty (time p)))) as Hm.
  unfold local_instant, time_hours, time_minutes.
  unfold resolve_status. rewrite Hd. cbn [or_empty truthy].
  replace (s =? "")%string with false
    by (destruct s; [discriminate | reflexivity]).
  cbn [negb]. rewrite (Date_parse_date_only tz s d Hl Hp).
  unfold setHours4. rewrite (Day_LocalTime_midnight tz d Htz).
  set (h := or_zero (component 0 _)) in *.
  set (m := or_zero (component 1 _)) in *.
  unfold TimeClip, UTC.
  replace (d * msPerDay + 0 * msPerHour + 0 * msPerMinute) with (d * msPerDay)
    by lia.
  unfold msPerDay, msPerHour, msPerMinute in *.
  destruct (Z.leb_spec (Z.abs (d * 86400000 - tz * 60000)) 8640000000000000);
    [|lia].
  cbn [date_lt getTime_eq].
  destruct (Z.ltb_spec (d * 86400000 - tz * 60000) t0);
    destruct (Z.eqb_spec (d * 86400000 - tz * 60000) t0);
    try lia.
  - cbn [status set_status]. repeat split; intros; try lia; auto.
  - destruct (truthy (time p)).
    + destruct (Z.leb_spec
                  (Z.abs (d * 86400000 + h * 3600000 + m * 60000 - tz * 60000))
                  8640000000000000); cbn [date_le].
      * destruct (Z.leb_spec
                    (d * 86400000 + h * 3600000 + m * 60000 - tz * 60000) now);
          cbn [status set_status]; repeat split; intros; try lia; auto;
          discriminate.
      * cbn [status set_status]. repeat split; intros; try lia; auto;
          discriminate.
    + cbn [status set_status]. repeat split; intros; try lia; auto;
        discriminate.
  - cbn [status set_status]. repeat split; intros; try lia; auto.
Qed.

(** The boundary is inclusive: on a host at UTC+8, an event of today at
    12:00 is [completed] at 12:00:00.000 and [announced] a millisecond
    before; a time without minutes or with a component that is no number
    counts 0 for it. *)
Example boundary_inclusive :
  status_of (resolve 480 1704081600000
               (mkAirdrop (JStr "TKN") None (JStr "2024-01-01") (JStr "12:00")
                          (JStr "announced") JUndefined))
  = Normal completed
  /\ status_of (resolve 480 1704081599999
                  (mkAirdrop (JStr "TKN") None (JStr "2024-01-01")
                             (JStr "12:00") (JStr "announced") JUndefined))
     = Normal announced
  /\ time_hours (JStr "12") = 12 /\ time_minutes (JStr "12") = 0
  /\ time_hours (JStr "ab:30") = 0 /\ time_minutes (JStr "ab:30") = 30.
Proof. repeat split. Qed.

(** ** The instant of the time shift *)

Lemma setHours1_plus_18 (tz t : Z) :
  setHours1 tz (Some t) (Some (getHours tz t + 18))
  = TimeClip (t + 18 * msPerHour).
Proof.
  unfold setHours1, getHours, UTC, Day, TimeWithinDay, LocalTime. f_equal.
  unfold msPerDay, msPerHour, msPerMinute.
  Z.div_mod_to_equations. lia.
Qed.

(** The time shift of a phase 2 event whose date and time read as the
    instant [t]: the effective instant is [t] plus 18 hours; the effective
    date is its UTC date, the effective time its local clock time. *)
Lemma shift_phase2_instant (tz t : Z) (a : Airdrop) :
  phase_is_2 a = true -> truthy (date a) = true ->
  Date_parse tz (or_empty (date a)
                 ++ (if truthy (time a) then "T" ++ or_empty (time a)
                     else "T00:00")) = Some t ->
  shift_phase2 tz a
  = match TimeClip (t + 18 * msPerHour) with
    | Some t' =>
        Normal (set_date_time a (JStr (slice0 10 (toISOString t')))
                              (JStr (slice0 5 (toTimeString tz t'))))
    | None => Throw RangeError
    end.
Proof.
  intros Hp Hd Ht. unfold shift_phase2. rewrite Hp, Hd, Ht.
  cbn [option_map]. now rewrite setHours1_plus_18.
Qed.

(** * Properties of the ordering *)

(** ** The code-unit order on strings *)

Lemma ascii_compare_refl (c : ascii) : Ascii.compare c c = Eq.
Proof. apply N.compare_refl. Qed.

Lemma string_compare_refl (s : string) : String.compare s s = Eq.
Proof.
  induction s as [|c s IH]; simpl; [reflexivity|].
  now rewrite ascii_compare_refl.
Qed.

Lemma string_compare_lt_trans (a b c : string) :
  String.compare a b = Lt -> String.compare b c = Lt ->
  String.compare a c = Lt.
Proof.
  revert b c.
  induction a as [|x a IH]; intros [|y b] [|z c]; simpl;
    try discriminate; auto.
  destruct (Ascii.compare x y) eqn:Exy; try discriminate;
    destruct (Ascii.compare y z) eqn:Eyz; try discriminate; intros Hab Hbc.
  - apply Ascii.compare_eq_iff in Exy, Eyz. subst.
    rewrite ascii_compare_refl. eauto.
  - apply Ascii.compare_eq_iff in Exy. subst. now rewrite Eyz.
  - apply Ascii.compare_eq_iff in Eyz. subst. now rewrite Exy.
  - unfold Ascii.compare in *.
    rewrite N.compare_lt_iff in *.
    replace (N_of_ascii x ?= N_of_ascii z)%N with Lt; [reflexivity|].
    symmetry. apply N.compare_lt_iff. lia.
Qed.

Lemma string_compare_gt_lt (a b : string) :
  String.compare a b = Gt <-> String.compare b a = Lt.
Proof.
  rewrite (String.compare_antisym a b).
  destruct (String.compare b a); simpl; split; congruence.
Qed.

Lemma string_compare_eq (a b : string) : String.compare a b = Eq <-> a = b.
Proof.
  split; [apply String.compare_eq_iff | intros ->; apply string_compare_refl].
Qed.

Lemma string_compare_gt_trans (a b c : string) :
  String.compare a b = Gt -> String.compare b c = Gt ->
  String.compare a c = Gt.
Proof.
  rewrite !string_compare_gt_lt. intros H1 H2.
  exact (string_compare_lt_trans c b a H2 H1).
Qed.

Lemma string_ge_cases (a b : string) :
  string_ge a b <-> a = b \/ String.compare a b = Gt.
Proof.
  unfold string_ge. rewrite <- string_compare_eq.
  destruct (String.compare a b); split; intros H;
    try tauto; try congruence; destruct H; congruence.
Qed.

Lemma string_ge_trans (a b c : string) :
  string_ge a b -> string_ge b c -> string_ge a c.
Proof.
  rewrite !string_ge_cases.
  intros [->|H1] [->|H2]; auto.
  right. eapply string_compare_gt_trans; eauto.
Qed.

(** Every non-empty string is above the empty one. *)
Lemma string_compare_empty (s : string) :
  s <> "" -> String.compare s "" = Gt.
Proof. destruct s; [congruence | reflexivity]. Qed.

Lemma lexical_compare_antisym (a b : string) :
  lexical_compare b a = - lexical_compare a b.
Proof.
  unfold lexical_compare. rewrite (String.compare_antisym b a).
  destruct (String.compare a b); reflexivity.
Qed.

Lemma lexical_compare_le (a b : string) :
  lexical_compare a b <= 0 <-> string_ge b a.
Proof.
  unfold lexical_compare, string_ge. rewrite (String.compare_antisym b a).
  destruct (String.compare a b); simpl; split; intros; try lia; congruence.
Qed.

Lemma lexical_compare_zero (a b : string) : lexical_compare a b = 0 <-> a = b.
Proof.
  unfold lexical_compare. rewrite <- string_compare_eq.
  destruct (String.compare a b); split; intros; try lia; congruence.
Qed.

(** ** The order, in the words of the specification *)

(** [ordered_before] is the order of the comparator that compares strings
    lexicographically. *)
Lemma compareLexical_le (a b : Airdrop) :
  compareLexical a b <= 0 <-> ordered_before a b.
Proof.
  unfold compareLexical, ordered_before.
  destruct (String.eqb_spec (or_empty (date a)) (or_empty (date b))) as [E|N];
    simpl.
  - rewrite E, string_compare_refl.
    destruct (truthy (time a)), (truthy (time b)); simpl;
      rewrite ?lexical_compare_le; split; intros H;
      try lia; try tauto;
      try (destruct H as [H|[_ [H|(H1 & H2 & H3)]]]; congruence).
  - rewrite lexical_compare_le, string_ge_cases. split.
    + intros [H|H]; [congruence | auto].
    + intros [H|[H _]]; [auto | congruence].
Qed.

Lemma compareLexical_antisym (a b : Airdrop) :
  compareLexical b a = - compareLexical a b.
Proof.
  unfold compareLexical.
  rewrite (String.eqb_sym (or_empty (date b)) (or_empty (date a))).
  destruct (or_empty (date a) =? or_empty (date b))%string; simpl.
  - destruct (truthy (time a)), (truthy (time b)); simpl; try reflexivity.
    apply lexical_compare_antisym.
  - apply lexical_compare_antisym.
Qed.

Lemma compareLexical_range (a b : Airdrop) :
  compareLexical a b = -1 \/ compareLexical a b = 0 \/ compareLexical a b = 1.
Proof.
  assert (range : forall x y, lexical_compare x y = -1 \/ lexical_compare x y = 0
                              \/ lexical_compare x y = 1).
  { intros x y. unfold lexical_compare. destruct (String.compare x y); auto. }
  unfold compareLexical.
  destruct (negb _); [apply range|].
  destruct (truthy (time a)), (truthy (time b)); cbn [negb andb]; auto.
Qed.

Lemma compareLexical_zero (a b : Airdrop) :
  compareLexical a b = 0
  <-> or_empty (date a) = or_empty (date b)
      /\ (if truthy (time a) then
            truthy (time b) = true /\ or_empty (time a) = or_empty (time b)
          else truthy (time b) = false).
Proof.
  unfold compareLexical.
  destruct (String.eqb_spec (or_empty (date a)) (or_empty (date b))) as [E|N];
    cbn [negb].
  - destruct (truthy (time a)), (truthy (time b)); cbn [negb andb].
    + rewrite lexical_compare_zero.
      split; [intros ->; auto | intros (_ & _ & ->); reflexivity].
    + split; [lia | intros (_ & H & _); discriminate].
    + split; [lia | intros (_ & H); discriminate].
    + split; auto.
  - rewrite lexical_compare_zero. split; [congruence|]. intros [H _].
    congruence.
Qed.

Lemma ordered_before_total (a b : Airdrop) :
  ordered_before a b \/ ordered_before b a.
Proof.
  rewrite <- !compareLexical_le, (compareLexical_antisym a b). lia.
Qed.

Lemma ordered_before_trans (a b c : Airdrop) :
  ordered_before a b -> ordered_before b c -> ordered_before a c.
Proof.
  unfold ordered_before.
  intros [H1|[E1 H1]] [H2|[E2 H2]].
  - left. eapply string_compare_gt_trans; eauto.
  - left. now rewrite <- E2.
  - left. now rewrite E1.
  - right. split; [congruence|].
    destruct H1 as [H1|(A1 & B1 & G1)]; [auto|].
    destruct H2 as [H2|(A2 & B2 & G2)]; [congruence|].
    right. repeat split; auto. eapply string_ge_trans; eauto.
Qed.

Lemma compareLexical_total (a b : Airdrop) :
  cmp_le compareLexical a b \/ cmp_le compareLexical b a.
Proof. unfold cmp_le. rewrite !compareLexical_le. apply ordered_before_total. Qed.

Lemma compareLexical_trans (a b c : Airdrop) :
  cmp_le compareLexical a b -> cmp_le compareLexical b c ->
  cmp_le compareLexical a c.
Proof. unfold cmp_le. rewrite !compareLexical_le. apply ordered_before_trans. Qed.

(** ** The stable insertion sort *)

Section SortFacts.
Context {A : Type} (cmp : A -> A -> Z).

Lemma insert_perm (x : A) (l : list A) :
  Permutation (x :: l) (insert cmp x l).
Proof.
  induction l as [|y l IH]; simpl; [reflexivity|].
  destruct (cmp x y <=? 0); [reflexivity|].
  rewrite perm_swap. now constructor.
Qed.

Lemma sort_perm (l : list A) : Permutation l (sort cmp l).
Proof.
  induction l as [|x l IH]; simpl; [constructor|].
  rewrite <- insert_perm. now constructor.
Qed.

Hypothesis cmp_total : forall x y, cmp_le cmp x y \/ cmp_le cmp y x.
Hypothesis cmp_trans : forall x y z, cmp_le cmp x y -> cmp_le cmp y z -> cmp_le cmp x z.

Lemma insert_sorted (x : A) (l : list A) :
  StronglySorted (cmp_le cmp) l -> StronglySorted (cmp_le cmp) (insert cmp x l).
Proof.
  induction 1 as [|y l Hs IH Hy]; simpl.
  - repeat constructor.
  - destruct (cmp x y <=? 0) eqn:E.
    + apply Z.leb_le in E. constructor; [now constructor|].
      constructor; [exact E|].
      eapply Forall_impl; [|exact Hy]. intros z Hz. eapply cmp_trans; eauto.
    + apply Z.leb_gt in E. constructor; [exact IH|].
      eapply Permutation_Forall; [apply insert_perm|].
      constructor; [|exact Hy].
      destruct (cmp_total x y) as [H|H]; [unfold cmp_le in H; lia | exact H].
Qed.

Lemma sort_sorted (l : list A) : StronglySorted (cmp_le cmp) (sort cmp l).
Proof.
  induction l as [|x l IH]; simpl; [constructor | now apply insert_sorted].
Qed.

(** Stability: the elements of one rank stay in the order they came in. *)
Lemma insert_stable (x a : A) (l : list A) :
  filter (same_rank cmp x) (insert cmp a l) = filter (same_rank cmp x) (a :: l).
Proof.
  induction l as [|y l IH]; [reflexivity|].
  cbn [insert]. destruct (cmp a y <=? 0) eqn:E; [reflexivity|].
  cbn [filter] in *. rewrite IH.
  destruct (same_rank cmp x a) eqn:Ea; [|reflexivity].
  destruct (same_rank cmp x y) eqn:Ey; [|reflexivity].
  exfalso. unfold same_rank in Ea, Ey.
  apply andb_prop in Ea, Ey. destruct Ea as [_ Ea], Ey as [Ey _].
  apply Z.leb_le in Ea, Ey. apply Z.leb_gt in E.
  pose proof (cmp_trans a x y Ea Ey) as H. unfold cmp_le in H. lia.
Qed.

Lemma sort_stable (x : A) (l : list A) :
  filter (same_rank cmp x) (sort cmp l) = filter (same_rank cmp x) l.
Proof.
  induction l as [|a l IH]; [reflexivity|].
  cbn [sort]. rewrite insert_stable. cbn [filter]. now rewrite IH.
Qed.
End SortFacts.

(** The sort looks at the comparator on the elements of the list only. *)
Section SortExt.
Context {A : Type} (cmp cmp' : A -> A -> Z).

Lemma insert_ext (x : A) (l : list A) :
  (forall y, In y l -> cmp x y = cmp' x y) ->
  insert cmp x l = insert cmp' x l.
Proof.
  induction l as [|y l IH]; intros H; cbn [insert]; [reflexivity|].
  rewrite (H y (or_introl eq_refl)).
  rewrite IH; [reflexivity|]. intros z Hz. apply H. now right.
Qed.

Lemma sort_ext (l : list A) :
  (forall x y, In x l -> In y l -> cmp x y = cmp' x y) ->
  sort cmp l = sort cmp' l.
Proof.
  induction l as [|x l IH]; intros H; cbn [sort]; [reflexivity|].
  rewrite IH by (intros; apply H; now right).
  apply insert_ext. intros y Hy. apply H; [now left|]. right.
  eapply Permutation_in; [apply Permutation_sym, sort_perm | exact Hy].
Qed.
End SortExt.

Section SortUnique.
Context {A : Type} (cmp : A -> A -> Z).
Hypothesis cmp_total : forall x y, cmp_le cmp x y \/ cmp_le cmp y x.
Hypothesis cmp_trans :
  forall x y z, cmp_le cmp x y -> cmp_le cmp y z -> cmp_le cmp x z.

Lemma same_rank_refl (x : A) : same_rank cmp x x = true.
Proof.
  unfold same_rank. destruct (cmp_total x x) as [H|H]; unfold cmp_le in H;
    apply Z.leb_le in H; now rewrite H.
Qed.

(** A sorted list is left as it is. *)
Lemma sort_sorted_id (l : list A) :
  StronglySorted (cmp_le cmp) l -> sort cmp l = l.
Proof.
  induction 1 as [|x l Hs IH Hx]; cbn [sort]; [reflexivity|].
  rewrite IH. destruct Hx as [|y l' Hy _]; cbn [insert]; [reflexivity|].
  unfold cmp_le in Hy. apply Z.leb_le in Hy. now rewrite Hy.
Qed.

(** Two sorted arrangements of the same elements that keep the elements
    of each rank in the same order are one list. *)
Lemma stable_sorted_unique (s l : list A) :
  Permutation s l ->
  StronglySorted (cmp_le cmp) s -> StronglySorted (cmp_le cmp) l ->
  (forall x, In x s ->
             filter (same_rank cmp x) s = filter (same_rank cmp x) l) ->
  s = l.
Proof.
  revert l. induction s as [|a s IH]; intros l P Ss Sl F.
  - apply Permutation_nil in P. now subst.
  - destruct l as [|b l];
      [apply Permutation_sym, Permutation_nil in P; discriminate|].
    apply StronglySorted_inv in Ss, Sl.
    destruct Ss as [Ss Ha], Sl as [Sl Hb].
    assert (Hab : cmp_le cmp a b).
    { assert (I : In b (a :: s))
        by (eapply Permutation_in; [apply Permutation_sym, P | now left]).
      destruct I as [->|I]; [|exact (proj1 (Forall_forall _ _) Ha b I)].
      destruct (cmp_total b b); assumption. }
    assert (Hba : cmp_le cmp b a).
    { assert (I : In a (b :: l))
        by (eapply Permutation_in; [apply P | now left]).
      destruct I as [->|I]; [|exact (proj1 (Forall_forall _ _) Hb a I)].
      destruct (cmp_total a a); assumption. }
    assert (E : a = b).
    { pose proof (F a (or_introl eq_refl)) as Fa. cbn [filter] in Fa.
      rewrite same_rank_refl in Fa.
      replace (same_rank cmp a b) with true in Fa; [congruence|].
      unfold same_rank, cmp_le in *.
      apply Z.leb_le in Hab, Hba. now rewrite Hab, Hba. }
    subst b. f_equal. apply IH; auto.
    + now apply Permutation_cons_inv in P.
    + intros x Hx. pose proof (F x (or_intror Hx)) as Fx. cbn [filter] in Fx.
      destruct (same_rank cmp x a); congruence.
Qed.
End SortUnique.

(** ** Lists in two parts *)

Lemma filter_split_perm {A : Type} (f : A -> bool) (l : list A) :
  Permutation (filter f l ++ filter (fun x => negb (f x)) l) l.
Proof.
  induction l as [|a l IH]; cbn [filter]; [constructor|].
  destruct (f a); cbn [negb app].
  - now constructor.
  - apply Permutation_sym, Permutation_cons_app, Permutation_sym, IH.
Qed.

Lemma filter_filter_all {A : Type} (f g : A -> bool) (l : list A) :
  (forall y, f y = true -> g y = true) ->
  filter f (filter g l) = filter f l.
Proof.
  intros H. induction l as [|a l IH]; cbn [filter]; [reflexivity|].
  destruct (g a) eqn:G; cbn [filter]; rewrite IH.
  - reflexivity.
  - destruct (f a) eqn:Fa; [|reflexivity].
    apply H in Fa. congruence.
Qed.

Lemma filter_filter_none {A : Type} (f g : A -> bool) (l : list A) :
  (forall y, f y = true -> g y = false) ->
  filter f (filter g l) = [].
Proof.
  intros H. induction l as [|a l IH]; cbn [filter]; [reflexivity|].
  destruct (g a) eqn:G; cbn [filter]; [|exact IH].
  destruct (f a) eqn:Fa; [|exact IH].
  apply H in Fa. congruence.
Qed.

Lemma Forall_filter_of {A : Type} (P : A -> Prop) (f : A -> bool) (l : list A) :
  Forall P l -> Forall P (filter f l).
Proof.
  rewrite !Forall_forall. intros H x Hx. apply filter_In in Hx. now apply H.
Qed.

Lemma StronglySorted_app {A : Type} (R : A -> A -> Prop) (l1 l2 : list A) :
  StronglySorted R l1 -> StronglySorted R l2 ->
  (forall x y, In x l1 -> In y l2 -> R x y) ->
  StronglySorted R (l1 ++ l2)%list.
Proof.
  intros H1 H2 C. induction H1 as [|a l1 Hs IH Ha]; cbn [app]; [exact H2|].
  constructor.
  - apply IH. intros x y Hx. apply C. now right.
  - apply Forall_app. split; [exact Ha|].
    apply Forall_forall. intros y Hy. apply C; [now left | exact Hy].
Qed.

(** ** The lexicographic comparator *)

Lemma truthy_or_empty (v : JsVal) : truthy v = false <-> or_empty v = "".
Proof.
  destruct v as [| |s]; simpl; try tauto.
  destruct (String.eqb_spec s ""); simpl; split; congruence.
Qed.

Lemma truthy_by_or_empty (v : JsVal) :
  truthy v = negb (or_empty v =? "")%string.
Proof. now destruct v. Qed.

Lemma sort_lexical_sorted (l : list Airdrop) :
  StronglySorted ordered_before (sort compareLexical l).
Proof.
  pose proof (sort_sorted compareLexical compareLexical_total
                          compareLexical_trans l) as H.
  induction H as [|a s Hs IH Ha]; constructor; auto.
  eapply Forall_impl; [|exact Ha]. intros b. apply compareLexical_le.
Qed.

Lemma ordered_before_cmp_le (s : list Airdrop) :
  StronglySorted ordered_before s -> StronglySorted (cmp_le compareLexical) s.
Proof.
  intros H. induction H as [|a s Hs IH Ha]; constructor; auto.
  eapply Forall_impl; [|exact Ha]. intros b. apply compareLexical_le.
Qed.

Lemma same_rank_timeless (d : string) (a : Airdrop) :
  same_rank compareLexical
            (mkAirdrop JUndefined None (JStr d) JUndefined JUndefined JUndefined)
            a
  = timeless_on d a.
Proof.
  unfold same_rank, timeless_on.
  rewrite (compareLexical_antisym _ a).
  unfold compareLexical. simpl.
  rewrite (String.eqb_sym (or_empty (date a)) d).
  destruct (String.eqb_spec d (or_empty (date a))) as [E|N]; simpl.
  - destruct (truthy (time a)); reflexivity.
  - assert (H : lexical_compare (or_empty (date a)) d <> 0)
      by (rewrite lexical_compare_zero; congruence).
    destruct (Z.leb_spec (lexical_compare (or_empty (date a)) d) 0);
      destruct (Z.leb_spec (- lexical_compare (or_empty (date a)) d) 0);
      simpl; try reflexivity; lia.
Qed.

(** Events of one rank have a date both, or neither. *)
Lemma same_rank_dated (x y : Airdrop) :
  same_rank compareLexical x y = true -> dated y = dated x.
Proof.
  unfold same_rank. intros H. apply andb_prop in H. destruct H as [H1 H2].
  apply Z.leb_le in H1, H2. rewrite (compareLexical_antisym x y) in H2.
  assert (Z0 : compareLexical x y = 0) by lia.
  apply compareLexical_zero in Z0. destruct Z0 as [E _].
  unfold dated. now rewrite !truthy_by_or_empty, E.
Qed.

(** An event with a date may stand before one without. *)
Lemma dated_before_undated (x y : Airdrop) :
  dated x = true -> dated y = false -> cmp_le compareLexical x y.
Proof.
  unfold dated, cmp_le. intros Hx Hy. apply compareLexical_le. left.
  apply truthy_or_empty in Hy. rewrite Hy.
  apply string_compare_empty. intros E.
  apply truthy_or_empty in E. congruence.
Qed.

(** The sort puts the events with a date first, sorted among themselves,
    and the events without a date after them, sorted among themselves. *)
Lemma sort_lexical_split (l : list Airdrop) :
  sort compareLexical l
  = (sort compareLexical (filter dated l)
     ++ sort compareLexical (filter undated l))%list.
Proof.
  symmetry.
  apply (stable_sorted_unique compareLexical compareLexical_total).
  - rewrite <- !sort_perm. apply (filter_split_perm dated l).
  - apply StronglySorted_app;
      try (apply sort_sorted;
           [exact compareLexical_total | exact compareLexical_trans]).
    intros x y Hx Hy.
    apply (Permutation_in _ (Permutation_sym (sort_perm _ _))) in Hx, Hy.
    apply filter_In in Hx, Hy. destruct Hx as [_ Hx], Hy as [_ Hy].
    apply dated_before_undated; [exact Hx|].
    unfold undated in Hy. now destruct (dated y).
  - apply sort_sorted; [exact compareLexical_total | exact compareLexical_trans].
  - intros x _. rewrite filter_app.
    rewrite !(sort_stable compareLexical compareLexical_trans).
    destruct (dated x) eqn:Dx.
    + rewrite (filter_filter_all (same_rank compareLexical x) dated).
      * rewrite (filter_filter_none (same_rank compareLexical x) undated).
        -- apply app_nil_r.
        -- intros y Hy. apply same_rank_dated in Hy. unfold undated.
           now rewrite Hy, Dx.
      * intros y Hy. apply same_rank_dated in Hy. congruence.
    + rewrite (filter_filter_none (same_rank compareLexical x) dated).
      * apply (filter_filter_all (same_rank compareLexical x) undated).
        intros y Hy. apply same_rank_dated in Hy. unfold undated.
        now rewrite Hy, Dx.
      * intros y Hy. apply same_rank_dated in Hy. congruence.
Qed.

(** ** The collation on the shapes of the data model *)

Lemma digit_collation (c : ascii) :
  is_digit c = true ->
  (48 <= N_of_ascii c <= 57)%N /\ ignorable c = false
  /\ collation_rank c = (N_of_ascii c - 45)%N.
Proof.
  intros H. unfold collation_rank. rewrite H.
  destruct (Ascii.eqb_spec c "-") as [->|_]; [vm_compute in H; discriminate H|].
  destruct (Ascii.eqb_spec c ":") as [->|_]; [vm_compute in H; discriminate H|].
  unfold is_digit in H. cbv zeta in H. unfold ignorable. cbv zeta.
  set (n := N_of_ascii c) in *.
  apply andb_prop in H. destruct H as [H1 H2]. apply N.leb_le in H1, H2.
  split; [lia|]. split; [|lia].
  destruct (N.ltb_spec n 9); [lia|].
  destruct (N.ltb_spec n 32); [lia|].
  destruct (N.eqb_spec n 127); [lia|].
  now rewrite andb_false_r.
Qed.

(** On two code units of one class the collation and the code-unit order
    agree, and neither code unit is ignored. *)
Lemma same_class_collation (x y : ascii) :
  same_class x y = true ->
  ignorable x = false /\ ignorable y = false
  /\ (collation_rank x ?= collation_rank y)%N = Ascii.compare x y.
Proof.
  unfold same_class. intros H. apply orb_prop in H. destruct H as [H|H];
    apply andb_prop in H; destruct H as [H1 H2].
  - destruct (digit_collation x H1) as (Bx & Ix & Rx).
    destruct (digit_collation y H2) as (By & Iy & Ry).
    repeat split; auto. rewrite Rx, Ry. unfold Ascii.compare.
    destruct (N.compare_spec (N_of_ascii x) (N_of_ascii y)) as [E|L|G].
    + rewrite E. apply N.compare_refl.
    + apply N.compare_lt_iff. lia.
    + apply N.compare_gt_iff. lia.
  - apply Ascii.eqb_eq in H1. subst y. apply orb_prop in H2.
    destruct H2 as [H2|H2]; apply Ascii.eqb_eq in H2; subst x;
      repeat split; reflexivity.
Qed.

Lemma same_class_template (t x y : ascii) :
  same_class x t = true -> same_class y t = true -> same_class x y = true.
Proof.
  unfold same_class. intros Hx Hy. apply orb_prop in Hx, Hy.
  destruct Hx as [Hx|Hx], Hy as [Hy|Hy];
    apply andb_prop in Hx, Hy; destruct Hx as [Px Qx], Hy as [Py Qy].
  - now rewrite Px, Py.
  - apply Ascii.eqb_eq in Py. subst y. apply orb_prop in Qy.
    destruct Qy as [Qy|Qy]; apply Ascii.eqb_eq in Qy; subst t;
      vm_compute in Qx; discriminate Qx.
  - apply Ascii.eqb_eq in Px. subst x. apply orb_prop in Qx.
    destruct Qx as [Qx|Qx]; apply Ascii.eqb_eq in Qx; subst t;
      vm_compute in Qy; discriminate Qy.
  - apply Ascii.eqb_eq in Px, Py. subst x y.
    now rewrite Ascii.eqb_refl, Qx, orb_true_r.
Qed.

Lemma same_shape_template (t a b : string) :
  same_shape a t = true -> same_shape b t = true -> same_shape a b = true.
Proof.
  revert a b. induction t as [|z t IH]; intros [|x a] [|y b];
    cbn [same_shape]; try discriminate; [reflexivity|].
  intros Ha Hb. apply andb_prop in Ha, Hb.
  destruct Ha as [Ca Sa], Hb as [Cb Sb].
  now rewrite (same_class_template z x y Ca Cb), (IH a b Sa Sb).
Qed.

Lemma same_shape_keys (a b : string) :
  same_shape a b = true ->
  compare_keys (collation_key a) (collation_key b) = String.compare a b.
Proof.
  revert b. induction a as [|x a IH]; intros [|y b]; cbn [same_shape];
    try discriminate; [reflexivity|].
  intros H. apply andb_prop in H. destruct H as [Hc Hs].
  destruct (same_class_collation x y Hc) as (Ix & Iy & R).
  cbn [collation_key String.compare]. rewrite Ix, Iy. cbn [compare_keys].
  rewrite R, (IH b Hs). reflexivity.
Qed.

(** On two strings of one shape [localeCompare] is the lexicographic
    comparison. *)
Lemma localeCompare_same_shape (a b : string) :
  same_shape a b = true -> localeCompare a b = lexical_compare a b.
Proof.
  intros H. unfold localeCompare, lexical_compare.
  now rewrite (same_shape_keys a b H).
Qed.

(** So it is on a string of such a shape and the empty string. *)
Lemma localeCompare_empty (s t : string) :
  same_shape s t = true -> s <> "" ->
  localeCompare s "" = 1 /\ localeCompare "" s = -1.
Proof.
  destruct s as [|x s], t as [|y t]; cbn [same_shape]; try discriminate;
    [congruence|].
  intros H _. apply andb_prop in H. destruct H as [Hc _].
  destruct (same_class_collation x y Hc) as (Ix & _).
  unfold localeCompare. cbn [collation_key]. rewrite Ix. split; reflexivity.
Qed.

Lemma localeCompare_dates (x y : string) :
  x = "" \/ date_shaped x = true -> y = "" \/ date_shaped y = true ->
  localeCompare x y = lexical_compare x y.
Proof.
  intros [->|Hx] [->|Hy].
  - reflexivity.
  - assert (N : y <> "") by (intros ->; discriminate Hy).
    destruct (localeCompare_empty y _ Hy N) as [_ ->].
    destruct y; [congruence | reflexivity].
  - assert (N : x <> "") by (intros ->; discriminate Hx).
    destruct (localeCompare_empty x _ Hx N) as [-> _].
    destruct x; [congruence | reflexivity].
  - apply localeCompare_same_shape.
    exact (same_shape_template _ _ _ Hx Hy).
Qed.

Lemma well_formed_fields (a : Airdrop) :
  well_formed a = true ->
  (or_empty (date a) = "" \/ date_shaped (or_empty (date a)) = true)
  /\ (truthy (time a) = true -> time_shaped (or_empty (time a)) = true).
Proof.
  unfold well_formed. intros H. apply andb_prop in H. destruct H as [D T].
  split.
  - destruct (truthy (date a)) eqn:E; [now right|].
    left. now apply truthy_or_empty.
  - intros E. now rewrite E in T.
Qed.

(** On events as the data model has them, the comparator of the sort is
    the lexicographic one. *)
Lemma compareAirdrops_lexical (a b : Airdrop) :
  well_formed a = true -> well_formed b = true ->
  compareAirdrops a b = compareLexical a b.
Proof.
  intros Ha Hb.
  destruct (well_formed_fields a Ha) as [Da Ta].
  destruct (well_formed_fields b Hb) as [Db Tb].
  unfold compareAirdrops, compareLexical. cbv zeta.
  rewrite (localeCompare_dates _ _ Db Da).
  destruct (negb _); [reflexivity|].
  destruct (truthy (time a)) eqn:Ea, (truthy (time b)) eqn:Eb;
    cbn [negb andb]; try reflexivity.
  apply localeCompare_same_shape.
  exact (same_shape_template _ _ _ (Tb eq_refl) (Ta eq_refl)).
Qed.

Lemma sortAirdrops_lexical (l : list Airdrop) :
  Forall (fun a => well_formed a = true) l ->
  sortAirdrops l = sort compareLexical l.
Proof.
  intros H. apply sort_ext. intros x y Hx Hy.
  rewrite Forall_forall in H. apply compareAirdrops_lexical; auto.
Qed.

Lemma same_rank_lexical (x : Airdrop) (l : list Airdrop) :
  well_formed x = true -> Forall (fun a => well_formed a = true) l ->
  filter (same_rank compareAirdrops x) l = filter (same_rank compareLexical x) l.
Proof.
  intros Hx H. apply filter_ext_in. intros y Hy.
  rewrite Forall_forall in H. unfold same_rank.
  now rewrite !compareAirdrops_lexical by auto.
Qed.

Lemma sortAirdrops_well_formed (l : list Airdrop) :
  Forall (fun a => well_formed a = true) (sortAirdrops l)
  <-> Forall (fun a => well_formed a = true) l.
Proof.
  split; apply Permutation_Forall;
    [apply Permutation_sym|]; apply sort_perm.
Qed.

(** The sort of events as the data model has them is sorted by
    [ordered_before], and stable. *)
Lemma sortAirdrops_sorted (l : list Airdrop) :
  Forall (fun a => well_formed a = true) l ->
  StronglySorted ordered_before (sortAirdrops l).
Proof.
  intros H. rewrite (sortAirdrops_lexical l H). apply sort_lexical_sorted.
Qed.

Lemma sortAirdrops_stable (l : list Airdrop) (x : Airdrop) :
  Forall (fun a => well_formed a = true) l -> well_formed x = true ->
  filter (same_rank compareAirdrops x) (sortAirdrops l)
  = filter (same_rank compareAirdrops x) l.
Proof.
  intros H Hx.
  rewrite (same_rank_lexical x (sortAirdrops l) Hx
             (proj2 (sortAirdrops_well_formed l) H)).
  rewrite (same_rank_lexical x l Hx H), (sortAirdrops_lexical l H).
  apply sort_stable, compareLexical_trans.
Qed.

(** The collection [fetchDataFromAPI] returns is the sort of the resolved
    events: the order is taken on the effective date and time. *)
Lemma fetchDataFromAPI_sorts (tz : Z) (w w1 : World) (data : Payload) :
  fetchDataFromAPI tz w = (Normal data, w1) ->
  exists response raw processed,
    fst (upstream w (upstream_calls w)) = clock w1 - clock w
    /\ snd (upstream w (upstream_calls w)) = Normal response
    /\ airdrops response = Some raw
    /\ processAirdropStatus tz (clock w1) raw = Normal processed
    /\ data = mkPayload (Some (sortAirdrops processed)) (others response).
Proof.
  unfold fetchDataFromAPI, fetch_and_process, axios_get.
  destruct (upstream w (upstream_calls w)) as [dt [response|e]];
    cbn [bind fst snd clock]; [|discriminate].
  destruct (airdrops response) as [raw|] eqn:R; [|discriminate].
  destruct (processAirdropStatus tz (clock w + dt) raw) as [processed|] eqn:P;
    cbn [bind]; [|discriminate].
  intros [= <- <-]. exists response, raw, processed. cbn [clock].
  repeat split; auto. lia.
Qed.

(** ** C7 *)

(** C7, as stated, fails: of two events of one date with the times [1:00]
    and [10:00], the sort puts [10:00] first, though [1:00] is the greater
    in the lexicographic order; the collation ranks [:] below the digits.
    The sorted collection is not descending by time under lexicographic
    comparison. *)
Lemma sort_unpadded_counterexample :
  sortAirdrops [at_one; at_ten] = [at_ten; at_one]
  /\ date at_one = date at_ten
  /\ String.compare (or_empty (time at_one)) (or_empty (time at_ten)) = Gt
  /\ compareLexical at_ten at_one = 1
  /\ (ordered_before at_ten at_one -> False).
Proof.
  split; [reflexivity|]. split; [reflexivity|]. split; [reflexivity|].
  split; [reflexivity|].
  intros H. apply compareLexical_le in H. vm_compute in H. now apply H.
Qed.

(** C7, amended: over events whose dates and times, where present, have
    the zero-padded shapes [YYYY-MM-DD] and [HH:MM] of the data model, the
    sort returns a permutation of its input that is sorted by
    [ordered_before], a total and transitive order: later dates first in
    the lexicographic order, within a date the events without a time
    first, then those with a time, later times first; the collection that
    [fetchDataFromAPI] returns is sorted so.  The sort is stable: events
    the comparator ranks alike keep their input order, among them the
    events of one date without a time.  The three events of the example
    sort into the order stated, from each order they may come in. *)
Theorem sortAirdrops_order :
  (forall a b, ordered_before a b \/ ordered_before b a)
  /\ (forall a b c, ordered_before a b -> ordered_before b c -> ordered_before a c)
  /\ (forall a b,
         well_formed a = true -> well_formed b = true ->
         (compareAirdrops a b <= 0 <-> ordered_before a b))
  /\ (forall l, Permutation l (sortAirdrops l))
  /\ (forall l,
         Forall (fun a => well_formed a = true) l ->
         StronglySorted ordered_before (sortAirdrops l))
  /\ (forall tz w w1 data,
         fetchDataFromAPI tz w = (Normal data, w1) ->
         exists l, airdrops data = Some l
                   /\ (Forall (fun a => well_formed a = true) l ->
                       StronglySorted ordered_before l))
  /\ (forall l x,
         Forall (fun a => well_formed a = true) l -> well_formed x = true ->
         filter (same_rank compareAirdrops x) (sortAirdrops l)
         = filter (same_rank compareAirdrops x) l)
  /\ (forall l d,
         Forall (fun a => well_formed a = true) l ->
         filter (timeless_on d) (sortAirdrops l) = filter (timeless_on d) l)
  /\ (forall k1 p1 s1 o1 k2 p2 s2 o2 k3 p3 s3 o3,
         let a := mkAirdrop k1 p1 (JStr "2024-01-02") JNull s1 o1 in
         let b := mkAirdrop k2 p2 (JStr "2024-01-02") (JStr "09:00") s2 o2 in
         let c := mkAirdrop k3 p3 (JStr "2024-01-01") (JStr "23:00") s3 o3 in
         sortAirdrops [a; b; c] = [a; b; c]
         /\ sortAirdrops [a; c; b] = [a; b; c]
         /\ sortAirdrops [b; a; c] = [a; b; c]
         /\ sortAirdrops [b; c; a] = [a; b; c]
         /\ sortAirdrops [c; a; b] = [a; b; c]
         /\ sortAirdrops [c; b; a] = [a; b; c]).
Proof.
  split; [exact ordered_before_total|].
  split; [exact ordered_before_trans|].
  split.
  { intros a b Ha Hb. rewrite (compareAirdrops_lexical a b Ha Hb).
    apply compareLexical_le. }
  split; [intros l; apply sort_perm|].
  split; [exact sortAirdrops_sorted|].
  split.
  { intros tz w w1 data H.
    destruct (fetchDataFromAPI_sorts _ _ _ _ H)
      as (response & raw & processed & _ & _ & _ & _ & ->).
    exists (sortAirdrops processed). split; [reflexivity|].
    intros W. apply sortAirdrops_sorted. now apply sortAirdrops_well_formed. }
  split; [exact sortAirdrops_stable|].
  split.
  - intros l d H. rewrite (sortAirdrops_lexical l H).
    rewrite <- !(filter_ext _ _ (same_rank_timeless d)).
    apply sort_stable, compareLexical_trans.
  - intros. repeat split.
Qed.

Lemma sortAirdrops_order_witness :
  StronglySorted ordered_before
                 (sortAirdrops [phase2_event; undated_announced; at_ten;
                                event_tomorrow]).
Proof.
  apply (proj1 (proj2 (proj2 (proj2 (proj2 sortAirdrops_order))))).
  repeat constructor.
Defined.

(** ** C10 *)

(** C10, as stated, fails: an event whose date is a string that the
    collation ignores altogether, here one control character, has a date,
    yet the comparator ranks it with the events that have none, and the
    sort leaves an undated event before it. *)
Lemma undated_before_dated_counterexample :
  dated undated_announced = false
  /\ dated control_dated = true
  /\ compareAirdrops undated_announced control_dated = 0
  /\ sortAirdrops [undated_announced; control_dated]
     = [undated_announced; control_dated].
Proof. repeat split. Qed.

(** C10, amended: the comparator reads an event without a date as one
    dated with the empty string.  Over events whose dates and times, where
    present, have the shapes [YYYY-MM-DD] and [HH:MM], an event without a
    date compares after every event with one, and the sorted collection is
    the sorted events with a date followed by the sorted events without:
    each part holds exactly the events of its kind, and the events without
    a date are sorted among themselves by the time rules.  Two events
    without a date compare as two events of one date do, by the time rules
    alone. *)
Theorem undated_sort_last :
  (forall a b,
      dated a = false ->
      compareAirdrops a b = compareAirdrops (set_date_time a (JStr "") (time a)) b
      /\ compareAirdrops b a
         = compareAirdrops b (set_date_time a (JStr "") (time a)))
  /\ (forall a b,
         dated a = false -> date_shaped (or_empty (date b)) = true ->
         compareAirdrops a b = 1 /\ compareAirdrops b a = -1)
  /\ (forall l,
         Forall (fun a => well_formed a = true) l ->
         sortAirdrops l
         = (sortAirdrops (filter dated l) ++ sortAirdrops (filter undated l))%list
         /\ Permutation (filter dated l) (sortAirdrops (filter dated l))
         /\ Permutation (filter undated l) (sortAirdrops (filter undated l))
         /\ Forall (fun a => dated a = true) (sortAirdrops (filter dated l))
         /\ Forall (fun a => dated a = false)
                   (sortAirdrops (filter undated l))
         /\ StronglySorted ordered_before (sortAirdrops (filter undated l)))
  /\ (forall a b d,
         dated a = false -> dated b = false ->
         compareAirdrops a b
         = compareAirdrops (set_date_time a (JStr d) (time a))
                           (set_date_time b (JStr d) (time b))).
Proof.
  split; [|split; [|split]].
  - intros a b Ha. unfold dated in Ha. apply truthy_or_empty in Ha.
    unfold compareAirdrops. simpl. rewrite Ha. auto.
  - intros a b Ha D. unfold dated in Ha. apply truthy_or_empty in Ha.
    assert (Hne : or_empty (date b) <> "").
    { intros E. rewrite E in D. discriminate D. }
    destruct (localeCompare_empty _ _ D Hne) as [L1 L2].
    unfold compareAirdrops. rewrite Ha.
    destruct (String.eqb_spec "" (or_empty (date b))) as [E|_];
      [congruence|].
    destruct (String.eqb_spec (or_empty (date b)) "") as [E|_];
      [congruence|].
    cbn [negb]. auto.
  - intros l W.
    assert (Wd : Forall (fun a => well_formed a = true) (filter dated l))
      by now apply Forall_filter_of.
    assert (Wu : Forall (fun a => well_formed a = true) (filter undated l))
      by now apply Forall_filter_of.
    split; [|split; [apply sort_perm|split; [apply sort_perm|]]];
      [|split; [|split]].
    + rewrite (sortAirdrops_lexical _ W), (sortAirdrops_lexical _ Wd),
        (sortAirdrops_lexical _ Wu).
      apply sort_lexical_split.
    + eapply Permutation_Forall; [apply sort_perm|].
      apply Forall_forall. intros x Hx. now apply filter_In in Hx.
    + eapply Permutation_Forall; [apply sort_perm|].
      apply Forall_forall. intros x Hx. apply filter_In in Hx.
      destruct Hx as [_ Hx]. unfold undated in Hx. now destruct (dated x).
    + now apply sortAirdrops_sorted.
  - intros a b d Ha Hb. unfold dated in Ha, Hb.
    apply truthy_or_empty in Ha, Hb.
    unfold compareAirdrops. simpl. rewrite Ha, Hb.
    now rewrite !String.eqb_refl.
Qed.

Lemma undated_sort_last_witness :
  sortAirdrops [undated_announced; event_tomorrow; undated_completed;
                phase2_event]
  = (sortAirdrops (filter dated [undated_announced; event_tomorrow;
                                 undated_completed; phase2_event])
     ++ sortAirdrops (filter undated [undated_announced; event_tomorrow;
                                      undated_completed; phase2_event]))%list
  /\ sortAirdrops [undated_announced; event_tomorrow; undated_completed;
                   phase2_event]
     = [event_tomorrow; phase2_event; undated_announced; undated_completed].
Proof.
  split; [|reflexivity].
  refine (proj1 (proj1 (proj2 (proj2 undated_sort_last)) _ _)).
  repeat constructor.
Defined.

(** * Properties of the change tracker *)

(** ** Strings *)

Lemma append_assoc (a b c : string) :
  ((a ++ b) ++ c = a ++ (b ++ c))%string.
Proof. induction a as [|x a IH]; simpl; [reflexivity | now rewrite IH]. Qed.

Lemma length_append (a b : string) :
  String.length (a ++ b) = (String.length a + String.length b)%nat.
Proof. induction a as [|x a IH]; simpl; [reflexivity | now rewrite IH]. Qed.

Lemma append_inv_head (a b c : string) :
  (a ++ b = a ++ c)%string -> b = c.
Proof. induction a as [|x a IH]; simpl; [auto | intros [= H]; auto]. Qed.

Lemma append_inv_tail (a b c : string) :
  (a ++ c = b ++ c)%string -> a = b.
Proof.
  revert b. induction a as [|x a IH]; intros [|y b] H; simpl in H.
  - reflexivity.
  - apply (f_equal String.length) in H. simpl in H.
    rewrite length_append in H. lia.
  - apply (f_equal String.length) in H. simpl in H.
    rewrite length_append in H. lia.
  - injection H as -> H. f_equal. auto.
Qed.

(** Two ways to cut one string: one first part is the start of the other. *)
Lemma append_eq_prefix (a b x y : string) :
  (a ++ x = b ++ y)%string ->
  (exists r, b = a ++ r)%string \/ (exists r, a = b ++ r)%string.
Proof.
  revert b. induction a as [|c a IH]; intros [|d b] H; simpl in *.
  - left. now exists "".
  - left. now exists (String d b).
  - right. now exists (String c a).
  - injection H as -> H. destruct (IH b H) as [[r ->]|[r ->]];
      [left | right]; now exists r.
Qed.

Lemma is_prefix_append (a r : string) : is_prefix a (a ++ r) = true.
Proof.
  induction a as [|x a IH]; simpl; [reflexivity|].
  now rewrite Ascii.eqb_refl.
Qed.

(** ** The escapes of [QuoteJSONString] form a prefix code *)

Lemma all_ascii_complete (c : ascii) : In c all_ascii.
Proof.
  unfold all_ascii. rewrite <- (ascii_nat_embedding c).
  apply in_map, in_seq. pose proof (nat_ascii_bounded c). lia.
Qed.

Lemma escape_char_prefix_free_all :
  forallb (fun c => forallb (prefix_free_at c) all_ascii) all_ascii = true.
Proof. vm_compute. reflexivity. Qed.

Lemma escape_char_prefix_free (c c' : ascii) (r : string) :
  escape_char c' = (escape_char c ++ r)%string -> c = c'.
Proof.
  intros H.
  pose proof escape_char_prefix_free_all as A.
  rewrite forallb_forall in A. specialize (A c (all_ascii_complete c)).
  rewrite forallb_forall in A. specialize (A c' (all_ascii_complete c')).
  unfold prefix_free_at in A. rewrite H, is_prefix_append in A. simpl in A.
  rewrite orb_false_r in A. now apply Ascii.eqb_eq.
Qed.

Lemma escape_char_nonempty (c : ascii) : escape_char c <> "".
Proof.
  unfold escape_char.
  repeat match goal with
         | |- context [if ?b then _ else _] => destruct b
         end; discriminate.
Qed.

Lemma escape_inj (s s' : string) : escape s = escape s' -> s = s'.
Proof.
  revert s'. induction s as [|c s IH]; intros [|c' s'] H; simpl in H.
  - reflexivity.
  - pose proof (escape_char_nonempty c').
    destruct (escape_char c'); [congruence | discriminate].
  - pose proof (escape_char_nonempty c).
    destruct (escape_char c); [congruence | discriminate].
  - assert (c = c').
    { destruct (append_eq_prefix _ _ _ _ H) as [[r E]|[r E]].
      - now apply escape_char_prefix_free in E.
      - symmetry. now apply escape_char_prefix_free in E. }
    subst c'. apply append_inv_head in H. f_equal. auto.
Qed.

Lemma quote_inj (s s' : string) : quote s = quote s' -> s = s'.
Proof.
  unfold quote. intros [= H]. apply append_inv_tail in H.
  now apply escape_inj.
Qed.

Lemma json_value_inj (v v' : JsVal) :
  json_value v = json_value v' -> v = v'.
Proof.
  destruct v as [| |s], v' as [| |s']; simpl; try discriminate; auto;
    try (unfold quote; discriminate).
  intros H. f_equal. apply quote_inj. congruence.
Qed.

(** ** The hash tells two statuses apart *)

(** Two objects of the hash that differ in the second property only have
    different JSON texts. *)
Lemma json_object_second_inj (k1 k2 k3 k4 : string) (v1 v3 v4 v v' : JsVal) :
  json_object [(k1, v1); (k2, v); (k3, v3); (k4, v4)]
  = json_object [(k1, v1); (k2, v'); (k3, v3); (k4, v4)] ->
  v = v'.
Proof.
  intros H. apply json_value_inj.
  unfold json_object in H. cbn [json_members] in H.
  destruct (json_value v1), (json_value v) as [j|], (json_value v') as [j'|],
    (json_value v3), (json_value v4);
    cbn [String.concat] in H; try reflexivity;
    try (exfalso; apply (f_equal String.length) in H;
         repeat rewrite length_append in H; simpl in H; lia);
    repeat rewrite append_assoc in H;
    repeat apply append_inv_head in H;
    apply append_inv_tail in H; congruence.
Qed.

Lemma append_nil_r (s : string) : (s ++ "")%string = s.
Proof. induction s as [|c s IH]; simpl; [reflexivity | now rewrite IH]. Qed.

Lemma concat_middle (xs : list string) (y : string) (ys : list string) :
  String.concat "," (xs ++ y :: ys)%list
  = (joined_before xs ++ y ++ joined_after ys)%string.
Proof.
  induction xs as [|x xs IH].
  - destruct ys; simpl; [now rewrite append_nil_r | reflexivity].
  - cbn [app joined_before fold_right].
    fold (joined_before xs). rewrite !append_assoc, <- IH.
    destruct xs; reflexivity.
Qed.

Lemma json_array_middle_inj (xs : list string) (y y' : string) (ys : list string) :
  json_array (xs ++ y :: ys)%list = json_array (xs ++ y' :: ys)%list -> y = y'.
Proof.
  unfold json_array. rewrite !concat_middle, !append_assoc.
  intros H. repeat apply append_inv_head in H.
  now apply append_inv_tail in H.
Qed.

Lemma hash_of_status_change (l1 l2 : list Airdrop) (a : Airdrop) (s : JsVal)
      (o o' : list (string * JsVal)) :
  s <> status a ->
  hash_of (l1 ++ with_status a s :: l2) o' <> hash_of (l1 ++ a :: l2) o.
Proof.
  intros Hs H. apply Hs. unfold hash_of, generateDataHash in H.
  cbn [airdrops] in H. rewrite !map_app in H. cbn [map] in H.
  assert (H' := f_equal (fun h => match h with Some x => x | None => "" end) H).
  cbv beta iota in H'. clear H. rename H' into H.
  apply json_array_middle_inj in H.
  exact (json_object_second_inj _ _ _ _ _ _ _ _ _ H).
Qed.

Lemma hash_eqb_eq (a b : option string) : hash_eqb a b = true <-> a = b.
Proof.
  destruct a as [x|], b as [y|]; simpl; try (split; congruence).
  rewrite String.eqb_eq. split; congruence.
Qed.

(** ** C8 *)

Lemma hash_of_tuples (l l' : list Airdrop) (o o' : list (string * JsVal)) :
  map hash_tuple l = map hash_tuple l' -> hash_of l o = hash_of l' o'.
Proof.
  intros H. unfold hash_of, generateDataHash. cbn [airdrops]. do 2 f_equal.
  set (f := fun t : JsVal * JsVal * JsVal * JsVal =>
              let '(k, s, d, t) := t in
              json_object [("token", k); ("status", s); ("date", d); ("time", t)]).
  transitivity (map f (map hash_tuple l)).
  - rewrite map_map. apply map_ext. reflexivity.
  - rewrite H, map_map. apply map_ext. reflexivity.
Qed.

(** C8: [detectDataChanges] with no fingerprint stored stores the new one
    and answers false; with one stored that differs from the new one it
    answers true and keeps the stored one; with one stored that is the new
    one it answers false.  The fingerprint of a collection is read off the
    ordered (token, status, date, time) tuples alone.  Hence, for one
    collection, the first call answers false, the second call on the same
    collection answers false, and a call on the collection with the status
    of one tuple changed answers true. *)
Theorem detectDataChanges_behaviour :
  (forall prev d,
      hash_truthy prev = false ->
      detectDataChanges prev d = (false, generateDataHash d))
  /\ (forall prev d,
         hash_truthy prev = true -> generateDataHash d <> prev ->
         detectDataChanges prev d = (true, prev))
  /\ (forall prev d,
         generateDataHash d = prev -> detectDataChanges prev d = (false, prev))
  /\ (forall l l' o o',
         map hash_tuple l = map hash_tuple l' -> hash_of l o = hash_of l' o')
  /\ (forall l o,
         detectDataChanges None (Some (mkPayload (Some l) o))
         = (false, hash_of l o)
         /\ detectDataChanges (hash_of l o) (Some (mkPayload (Some l) o))
            = (false, hash_of l o)
         /\ forall l1 a l2 s o',
             l = (l1 ++ a :: l2)%list -> s <> status a ->
             detectDataChanges
               (hash_of l o)
               (Some (mkPayload (Some (l1 ++ with_status a s :: l2)%list) o'))
             = (true, hash_of l o)).
Proof.
  assert (differs : forall prev d,
             hash_truthy prev = true -> generateDataHash d <> prev ->
             detectDataChanges prev d = (true, prev)).
  { intros prev d Ht Hne. unfold detectDataChanges. rewrite Ht.
    destruct (hash_eqb (generateDataHash d) prev) eqn:E; [|reflexivity].
    apply hash_eqb_eq in E. contradiction. }
  assert (same : forall prev d,
             generateDataHash d = prev -> detectDataChanges prev d = (false, prev)).
  { intros prev d <-. unfold detectDataChanges.
    replace (hash_eqb (generateDataHash d) (generateDataHash d)) with true
      by (symmetry; now apply hash_eqb_eq).
    now rewrite andb_false_r. }
  split; [|split; [exact differs|split; [exact same|split]]].
  - intros prev d Ht. unfold detectDataChanges. now rewrite Ht.
  - exact hash_of_tuples.
  - intros l o. split; [reflexivity|]. split; [now apply same|].
    intros l1 a l2 s o' -> Hs. apply differs; [reflexivity|].
    exact (hash_of_status_change l1 l2 a s o o' Hs).
Qed.

Lemma detectDataChanges_behaviour_witness :
  detectDataChanges
    (hash_of [undated_announced] [])
    (Some (mkPayload (Some [with_status undated_announced completed]) []))
  = (true, hash_of [undated_announced] []).
Proof.
  refine (proj2 (proj2 (proj2 (proj2 (proj2 (proj2 detectDataChanges_behaviour)))
                         [undated_announced] []))
                [] undated_announced [] completed [] eq_refl _).
  discriminate.
Defined.

(** * Properties of the cache *)

Lemma cache_hit_spec (s : Server) (now : Z) (cached : Payload) :
  cache_hit s now = Some cached <->
  cachedData s = Some cached
  /\ exists t, lastFetchTime s = Some t /\ now - t < freshness_window.
Proof.
  unfold cache_hit.
  destruct (cachedData s) as [c|], (lastFetchTime s) as [t|];
    try (split; [discriminate | intros [H [t' [H' _]]]; discriminate]).
  destruct (Z.ltb_spec (now - t) freshness_window) as [L|L]; split.
  - intros [= <-]. split; [reflexivity|]. now exists t.
  - intros [[= ->] _]. reflexivity.
  - discriminate.
  - intros [_ [t' [[= <-] H]]]. lia.
Qed.

(** A live refresh calls the feed once. *)
Lemma fetchDataFromAPI_calls (tz : Z) (w w1 : World) (r : Completion Payload) :
  fetchDataFromAPI tz w = (r, w1) ->
  upstream_calls w1 = S (upstream_calls w).
Proof.
  unfold fetchDataFromAPI, fetch_and_process, axios_get.
  destruct (upstream w (upstream_calls w)) as [dt response].
  destruct (_ <- response ;; _); now intros [= _ <-].
Qed.

(** A failed refresh of the timer leaves the globals as they were. *)
Lemma updateData_failure (tz : Z) (s : Server) (w w1 : World) (e : JsError) :
  fetchDataFromAPI tz w = (Throw e, w1) -> updateData tz s w = (s, w1).
Proof. intros H. unfold updateData. now rewrite H. Qed.

(** ** C9 *)

(** C9: with a snapshot cached whose age is strictly below the window of
    five minutes, [GET /fetch-data] answers the cached body as it is,
    without [hasChanges] and [lastUpdateTime], and leaves the globals, the
    clock and the count of upstream calls as they were; two such requests
    get the same answer.  An answer that carries the two properties comes
    from a live refresh: the feed was called once, and the body answered is
    the new snapshot.  An answer without them is the cached snapshot. *)
Theorem fresh_cache_served :
  (forall tz s w cached t,
      cachedData s = Some cached -> lastFetchTime s = Some t ->
      clock w - t < freshness_window ->
      fetch_data tz s w = (Ok200 cached None, s, w))
  /\ (forall tz s w w' cached t,
         cachedData s = Some cached -> lastFetchTime s = Some t ->
         clock w - t < freshness_window ->
         clock w' - t < freshness_window ->
         let '(r1, s1, w1) := fetch_data tz s w in
         let '(r2, s2, w2) :=
           fetch_data tz s1 {| clock := clock w';
                               upstream_calls := upstream_calls w1;
                               upstream := upstream w1 |} in
         r1 = r2 /\ r1 = Ok200 cached None
         /\ upstream_calls w2 = upstream_calls w)
  /\ (forall tz s w body ann s' w',
         fetch_data tz s w = (Ok200 body (Some ann), s', w') ->
         cache_hit s (clock w) = None
         /\ upstream_calls w' = S (upstream_calls w)
         /\ cachedData s' = Some body
         /\ lastFetchTime s' = Some (clock w')
         /\ snd ann = toISOString (clock w'))
  /\ (forall tz s w body s' w',
         fetch_data tz s w = (Ok200 body None, s', w') ->
         cachedData s = Some body /\ s' = s /\ w' = w)
  /\ freshness_window = 300000.
Proof.
  assert (hit : forall tz s w cached t,
             cachedData s = Some cached -> lastFetchTime s = Some t ->
             clock w - t < freshness_window ->
             fetch_data tz s w = (Ok200 cached None, s, w)).
  { intros tz s w cached t Hc Ht Hw. unfold fetch_data.
    replace (cache_hit s (clock w)) with (Some cached); [reflexivity|].
    symmetry. apply cache_hit_spec. split; [exact Hc|]. now exists t. }
  split; [exact hit|]. split; [|split; [|split; [|reflexivity]]].
  - intros tz s w w' cached t Hc Ht Hw Hw'.
    rewrite (hit tz s w cached t Hc Ht Hw).
    rewrite (hit tz s (mkWorld (clock w') (upstream_calls w) (upstream w))
                 cached t Hc Ht Hw').
    auto.
  - intros tz s w body ann s' w'. unfold fetch_data.
    destruct (cache_hit s (clock w)); [discriminate|].
    destruct (fetchDataFromAPI tz w) as [[data|e] w1] eqn:F; [|discriminate].
    destruct (detectDataChanges _ _) as [hasChanges h].
    intros [= <- <- <- <-]. simpl.
    repeat split. exact (fetchDataFromAPI_calls _ _ _ _ F).
  - intros tz s w body s' w'. unfold fetch_data.
    destruct (cache_hit s (clock w)) as [c|] eqn:Hc.
    + intros [= <- <- <-]. apply cache_hit_spec in Hc. tauto.
    + destruct (fetchDataFromAPI tz w) as [[data|e] w1]; [|discriminate].
      destruct (detectDataChanges _ _); discriminate.
Qed.

Lemma fresh_cache_served_witness :
  fetch_data 480 sample_server sample_world
  = (Ok200 sample_payload None, sample_server, sample_world).
Proof.
  apply (proj1 fresh_cache_served 480 sample_server sample_world
               sample_payload 1704081600000);
    [reflexivity | reflexivity | reflexivity].
Defined.

(** * Further properties of the resolver *)

Lemma shift_phase2_shifted (tz : Z) (a : Airdrop) :
  phase_is_2 a = true -> truthy (date a) = true ->
  shift_phase2 tz a
  = match shifted_instant tz a with
    | Some t' =>
        Normal (set_date_time a (JStr (slice0 10 (toISOString t')))
                              (JStr (slice0 5 (toTimeString tz t'))))
    | None => Throw RangeError
    end.
Proof.
  intros Hp Hd. unfold shift_phase2, shifted_instant. rewrite Hp, Hd.
  destruct (Date_parse tz _) as [t|]; cbn [option_map].
  - now rewrite setHours1_plus_18.
  - reflexivity.
Qed.

Lemma resolve_status_token_phase (tz : Z) (today : JsDate) (now : Z) (raw p : Airdrop) :
  token (resolve_status tz today now raw p) = token p
  /\ phase (resolve_status tz today now raw p) = phase p.
Proof.
  unfold resolve_status.
  repeat match goal with
         | |- context [if ?c then _ else _] => destruct c
         end; simpl; auto.
Qed.

Lemma shift_phase2_token_phase (tz : Z) (a p : Airdrop) :
  shift_phase2 tz a = Normal p -> token p = token a /\ phase p = phase a.
Proof.
  unfold shift_phase2.
  destruct (phase_is_2 a); [|intros [= <-]; auto].
  destruct (truthy (date a)); [|intros [= <-]; auto].
  destruct (setHours1 _ _ _); [|discriminate].
  intros [= <-]. auto.
Qed.

(** X1: the resolver never changes the token or the phase of an event.  An
    event whose phase is not 2 is always resolved, with its date and time
    as they came; an event without a date is returned as it came, whatever
    its phase. *)
Theorem resolver_frame (tz now : Z) (e : Airdrop) :
  (forall out, resolve tz now e = Normal out ->
               token out = token e /\ phase out = phase e)
  /\ (phase_is_2 e = false ->
      exists out, resolve tz now e = Normal out
                  /\ date out = date e /\ time out = time e)
  /\ (truthy (date e) = false -> resolve tz now e = Normal e).
Proof.
  split; [|split].
  - intros out. unfold resolve, processAirdrop.
    destruct (shift_phase2 tz e) as [p|] eqn:Hs; cbn [bind]; [|discriminate].
    intros [= <-].
    destruct (resolve_status_token_phase tz (startOfToday tz now) now e p)
      as [-> ->].
    now apply shift_phase2_token_phase in Hs.
  - intros Hp. unfold resolve, processAirdrop.
    rewrite (shift_phase2_other tz e Hp). cbn [bind].
    eexists. split; [reflexivity|]. apply resolve_status_date_time.
  - intros Hd. unfold resolve, processAirdrop, shift_phase2. rewrite Hd.
    destruct (phase_is_2 e); cbn [bind];
      now rewrite (resolve_status_undated _ _ _ _ _ Hd).
Qed.

Lemma mapM_Forall2 {A B : Type} (f : A -> Completion B) (l : list A) (out : list B) :
  mapM f l = Normal out <-> Forall2 (fun a b => f a = Normal b) l out.
Proof.
  revert out. induction l as [|a l IH]; intros out; cbn [mapM].
  - split; [intros [= <-]; constructor | intros H; inversion H; reflexivity].
  - destruct (f a) as [b|e] eqn:Fa; cbn [bind].
    + destruct (mapM f l) as [bs|e] eqn:Fl; cbn [bind]; split.
      * intros [= <-]. constructor; [exact Fa | now apply IH].
      * intros H. inversion H as [|? b' ? bs' Hb Hbs]; subst.
        apply IH in Hbs. congruence.
      * discriminate.
      * intros H. inversion H as [|? b' ? bs' Hb Hbs]; subst.
        apply IH in Hbs. discriminate.
    + split; [discriminate|].
      intros H. inversion H; subst. congruence.
Qed.

Lemma mapM_Throw {A B : Type} (f : A -> Completion B) (l : list A) (err : JsError) :
  mapM f l = Throw err
  <-> exists l1 a l2,
      l = (l1 ++ a :: l2)%list /\ f a = Throw err
      /\ Forall (fun x => exists b, f x = Normal b) l1.
Proof.
  induction l as [|a l IH]; cbn [mapM].
  - split; [discriminate|].
    intros (l1 & x & l2 & H & _). destruct l1; discriminate.
  - destruct (f a) as [b|e] eqn:Fa; cbn [bind].
    + destruct (mapM f l) as [bs|e] eqn:Fl; cbn [bind]; split.
      * discriminate.
      * intros (l1 & x & l2 & H & Hx & Hl1).
        destruct l1 as [|y l1]; cbn [app] in H; injection H as -> ->;
          [congruence|].
        inversion Hl1; subst.
        assert (G : Normal bs = Throw err)
          by (apply IH; exists l1, x, l2; auto).
        discriminate.
      * intros E.
        destruct (proj1 IH E) as (l1 & x & l2 & -> & Hx & Hl1).
        exists (a :: l1), x, l2. repeat split; auto.
        constructor; [now exists b | exact Hl1].
      * intros (l1 & x & l2 & H & Hx & Hl1).
        destruct l1 as [|y l1]; cbn [app] in H; injection H as -> ->;
          [congruence|].
        inversion Hl1; subst.
        apply IH. exists l1, x, l2. auto.
    + split.
      * intros [= ->]. exists [], a, l. repeat split; auto.
      * intros (l1 & x & l2 & H & Hx & Hl1).
        destruct l1 as [|y l1]; cbn [app] in H; injection H as -> ->;
          [congruence|].
        inversion Hl1 as [|? ? [b Hb] ?]; subst. congruence.
Qed.

(** X3: over a list, [processAirdropStatus] resolves event by event, in
    order: it returns [out] exactly when [out] lists the resolved events
    of the input, one for one; it throws exactly the error of the first
    event that the resolver throws on; an empty list gives an empty
    list. *)
Theorem processAirdropStatus_pointwise (tz now : Z) (l : list Airdrop) :
  (forall out,
      processAirdropStatus tz now l = Normal out
      <-> Forall2 (fun e o => resolve tz now e = Normal o) l out)
  /\ (forall err,
         processAirdropStatus tz now l = Throw err
         <-> exists l1 e l2,
             l = (l1 ++ e :: l2)%list /\ resolve tz now e = Throw err
             /\ Forall (fun x => exists o, resolve tz now x = Normal o) l1)
  /\ (forall out,
         processAirdropStatus tz now l = Normal out ->
         List.length out = List.length l)
  /\ processAirdropStatus tz now [] = Normal [].
Proof.
  split; [|split; [|split]].
  - intros out. apply mapM_Forall2.
  - intros err. apply mapM_Throw.
  - intros out H. apply mapM_Forall2 in H.
    symmetry. exact (Forall2_length H).
  - reflexivity.
Qed.

(** * Further properties of the change tracker *)

(** ** The JSON text of the hash can be read back *)

Lemma escape_char_not_dquote_all :
  forallb (fun c => negb (is_prefix (String dquote "") (escape_char c)))
          all_ascii = true.
Proof. vm_compute. reflexivity. Qed.

Lemma escape_char_not_dquote (c : ascii) (r x : string) :
  (escape_char c ++ r)%string <> String dquote x.
Proof.
  intros H.
  pose proof escape_char_not_dquote_all as A.
  rewrite forallb_forall in A. specialize (A c (all_ascii_complete c)).
  pose proof (escape_char_nonempty c) as N.
  destruct (escape_char c) as [|a e]; [congruence|].
  cbn [append] in H. injection H as -> _.
  cbn [is_prefix] in A. rewrite Ascii.eqb_refl in A. discriminate.
Qed.

(** A quoted string ends where its closing quote stands. *)
Lemma escape_delimited (s s' x x' : string) :
  (escape s ++ String dquote x = escape s' ++ String dquote x')%string ->
  s = s' /\ x = x'.
Proof.
  revert s'. induction s as [|c s IH]; intros [|c' s'] H; cbn [escape] in H.
  - cbn [append] in H. injection H as ->. auto.
  - rewrite append_assoc in H. cbn [append] in H.
    symmetry in H. now apply escape_char_not_dquote in H.
  - rewrite append_assoc in H. cbn [append] in H.
    now apply escape_char_not_dquote in H.
  - rewrite !append_assoc in H.
    assert (c = c').
    { destruct (append_eq_prefix _ _ _ _ H) as [[r E]|[r E]].
      - now apply escape_char_prefix_free in E.
      - symmetry. now apply escape_char_prefix_free in E. }
    subst c'. apply append_inv_head in H.
    destruct (IH s' H) as [-> ->]. auto.
Qed.

Lemma quote_delimited (s s' x x' : string) :
  (quote s ++ x = quote s' ++ x')%string -> s = s' /\ x = x'.
Proof.
  unfold quote. cbn [append]. intros [= H].
  rewrite !append_assoc in H. cbn [append] in H.
  now apply escape_delimited in H.
Qed.

Lemma json_value_delimited (v v' : JsVal) (j j' x x' : string) :
  json_value v = Some j -> json_value v' = Some j' ->
  (j ++ x = j' ++ x')%string -> v = v' /\ x = x'.
Proof.
  destruct v as [| |s], v' as [| |s']; cbn [json_value]; try discriminate;
    intros [= <-] [= <-] H.
  - cbn [append] in H. injection H as ->. auto.
  - unfold quote in H. cbn [append] in H. discriminate.
  - unfold quote in H. cbn [append] in H. discriminate.
  - apply quote_delimited in H. destruct H as [-> ->]. auto.
Qed.

Lemma json_value_None (v : JsVal) : json_value v = None -> v = JUndefined.
Proof. destruct v; cbn [json_value]; congruence. Qed.

Lemma concat_joined_after (m : string) (ms : list string) :
  String.concat "," (m :: ms) = (m ++ joined_after ms)%string.
Proof.
  destruct ms; cbn [String.concat joined_after];
    [now rewrite append_nil_r | reflexivity].
Qed.

Lemma joined_text_spec (close : string) (items : list string) :
  joined_text close true items = (String.concat "," items ++ close)%string
  /\ joined_text close false items = (joined_after items ++ close)%string.
Proof.
  induction items as [|i items [IH1 IH2]].
  - split; reflexivity.
  - cbn [joined_text]. rewrite IH2. split.
    + rewrite concat_joined_after, append_assoc. reflexivity.
    + cbn [joined_after]. rewrite concat_joined_after, !append_assoc.
      reflexivity.
Qed.

Lemma json_object_joined (props : list (string * JsVal)) :
  json_object props
  = ("{" ++ joined_text "}" true (json_members props))%string.
Proof.
  unfold json_object. now rewrite (proj1 (joined_text_spec "}" _)).
Qed.

Lemma json_array_joined (items : list string) :
  json_array items = ("[" ++ joined_text "]" true items)%string.
Proof.
  unfold json_array. now rewrite (proj1 (joined_text_spec "]" _)).
Qed.

(** What the text of the members starts with: the closing brace, or the
    member of a property that is there. *)
Lemma members_head (first : bool) (props : list (string * JsVal)) :
  joined_text "}" first (json_members props) = "}"
  \/ exists k v j rest,
      In (k, v) props /\ json_value v = Some j
      /\ joined_text "}" first (json_members props)
         = ((if first then "" else ",") ++ quote k ++ ":" ++ j ++ rest)%string.
Proof.
  induction props as [|[k v] props IH]; cbn [json_members].
  - left. reflexivity.
  - destruct (json_value v) as [j|] eqn:J.
    + right. exists k, v, j, (joined_text "}" false (json_members props)).
      split; [now left|]. split; [exact J|].
      cbn [joined_text]. now rewrite !append_assoc.
    + destruct IH as [IH|(k' & v' & j' & rest & Hin & J' & E)];
        [now left|].
      right. exists k', v', j', rest. split; [now right|]. auto.
Qed.

Lemma member_not_head (first : bool) (k : string) (j r x' : string)
      (props : list (string * JsVal)) :
  ~ In k (map fst props) ->
  ((if first then "" else ",") ++ quote k ++ ":" ++ j ++ r)%string
  <> (joined_text "}" first (json_members props) ++ x')%string.
Proof.
  intros Hk H.
  destruct (members_head first props)
    as [E|(k' & v' & j' & rest & Hin & J' & E)];
    rewrite E in H.
  - destruct first; unfold quote in H; cbn [append] in H; discriminate.
  - rewrite !append_assoc in H. apply append_inv_head in H.
    apply quote_delimited in H. destruct H as [-> _].
    apply Hk. apply in_map_iff. now exists (k', v').
Qed.

(** The text of an object tells the values of its properties, and where
    the object ends. *)
Lemma members_delimited (props props' : list (string * JsVal)) (first : bool)
      (x x' : string) :
  map fst props = map fst props' -> NoDup (map fst props) ->
  (joined_text "}" first (json_members props) ++ x
   = joined_text "}" first (json_members props') ++ x')%string ->
  map snd props = map snd props' /\ x = x'.
Proof.
  revert props' first.
  induction props as [|[k v] props IH]; intros [|[k' v'] props'] first K N H;
    try discriminate.
  - cbn [json_members joined_text append] in H. injection H as ->. auto.
  - cbn [map fst] in K. injection K as <- K.
    cbn [map fst] in N. inversion N as [|? ? Hk N']; subst.
    cbn [json_members] in H.
    destruct (json_value v) as [j|] eqn:J;
      destruct (json_value v') as [j'|] eqn:J'.
    + cbn [joined_text] in H. rewrite !append_assoc in H.
      apply append_inv_head in H. apply append_inv_head in H.
      cbn [append] in H. injection H as H.
      destruct (json_value_delimited _ _ _ _ _ _ J J' H) as [-> H'].
      destruct (IH props' false K N' H') as [E ->].
      cbn [map snd]. now rewrite E.
    + exfalso. cbn [joined_text] in H. rewrite !append_assoc in H.
      rewrite K in Hk. exact (member_not_head _ _ _ _ _ _ Hk H).
    + exfalso. cbn [joined_text] in H. rewrite !append_assoc in H.
      symmetry in H. exact (member_not_head _ _ _ _ _ _ Hk H).
    + apply json_value_None in J, J'. subst.
      destruct (IH props' first K N' H) as [E ->].
      cbn [map snd]. now rewrite E.
Qed.

Lemma hash_object_delimited (a a' : Airdrop) (x x' : string) :
  (json_object (hash_fields a) ++ x = json_object (hash_fields a') ++ x')%string ->
  hash_tuple a = hash_tuple a' /\ x = x'.
Proof.
  rewrite !json_object_joined, !append_assoc. intros H.
  apply append_inv_head in H. apply members_delimited in H.
  - destruct H as [H ->]. cbn [hash_fields map snd] in H.
    unfold hash_tuple. split; congruence.
  - reflexivity.
  - cbn [hash_fields map fst].
    repeat (apply NoDup_cons; [cbn [In]; intuition discriminate|]).
    apply NoDup_nil.
Qed.

Lemma hash_items_inj (l l' : list Airdrop) (first : bool) :
  joined_text "]" first (map (fun a => json_object (hash_fields a)) l)
  = joined_text "]" first (map (fun a => json_object (hash_fields a)) l') ->
  map hash_tuple l = map hash_tuple l'.
Proof.
  revert l' first.
  induction l as [|a l IH]; intros [|a' l'] first H; cbn [map joined_text] in H.
  - reflexivity.
  - exfalso. rewrite json_object_joined in H.
    destruct first; cbn [append] in H; discriminate.
  - exfalso. rewrite json_object_joined in H.
    destruct first; cbn [append] in H; discriminate.
  - apply append_inv_head in H. apply hash_object_delimited in H.
    destruct H as [E H]. cbn [map]. rewrite E. f_equal. exact (IH l' false H).
Qed.

(** The fingerprints of two collections are equal exactly when their
    tuples are. *)
Lemma hash_of_inj (l l' : list Airdrop) (o o' : list (string * JsVal)) :
  hash_of l o = hash_of l' o' <-> map hash_tuple l = map hash_tuple l'.
Proof.
  split; [|apply hash_of_tuples].
  unfold hash_of, generateDataHash. cbn [airdrops]. intros H.
  apply (f_equal (fun h => match h with Some x => x | None => "" end)) in H.
  cbv beta iota in H. rewrite !json_array_joined in H.
  apply append_inv_head in H. exact (hash_items_inj _ _ _ H).
Qed.

(** X4: two bodies have the same fingerprint exactly when they have the
    same (token, status, date, time) tuples in the same order; a missing
    body and a body without events have the fingerprint [null], which no
    list of events has. *)
Theorem generateDataHash_exact (d d' : option Payload) :
  generateDataHash d = generateDataHash d' <-> tuples_of d = tuples_of d'.
Proof.
  destruct d as [[[l|] o]|], d' as [[[l'|] o']|];
    cbn [tuples_of airdrops option_map];
    try (split; [discriminate | discriminate]);
    try (split; reflexivity).
  change (hash_of l o = hash_of l' o'
          <-> Some (map hash_tuple l) = Some (map hash_tuple l')).
  rewrite hash_of_inj. split; congruence.
Qed.

Lemma generateDataHash_tuples (d : option Payload) (l0 : list Airdrop)
      (o0 : list (string * JsVal)) :
  generateDataHash d = hash_of l0 o0
  <-> tuples_of d = Some (map hash_tuple l0).
Proof.
  destruct d as [[[l|] o]|]; cbn [tuples_of airdrops option_map];
    try (split; discriminate).
  change (hash_of l o = hash_of l0 o0
          <-> Some (map hash_tuple l) = Some (map hash_tuple l0)).
  rewrite hash_of_inj. split; congruence.
Qed.

(** Once a fingerprint is stored, no call replaces it. *)
Lemma detectDataChanges_frozen (prev : option string) (d : option Payload) :
  hash_truthy prev = true ->
  detectDataChanges prev d
  = (negb (hash_eqb (generateDataHash d) prev), prev).
Proof.
  intros Ht. unfold detectDataChanges. rewrite Ht. cbn [andb].
  destruct (hash_eqb (generateDataHash d) prev) eqn:E; cbn [negb];
    [|reflexivity].
  apply hash_eqb_eq in E. now rewrite E.
Qed.

Lemma detect_run_frozen (prev : option string) (ds : list (option Payload)) :
  hash_truthy prev = true ->
  detect_run prev ds
  = (map (fun d => negb (hash_eqb (generateDataHash d) prev)) ds, prev).
Proof.
  intros Ht. induction ds as [|d ds IH]; cbn [detect_run map];
    [reflexivity|].
  now rewrite (detectDataChanges_frozen prev d Ht), IH.
Qed.

(** X5: the tracker compares every fetch with the first collection it
    saw, not with the one before.  After a first call on the events [l0],
    the fingerprint stored stays that of [l0] through any run of calls,
    and each call answers true exactly when its tuples are not those of
    [l0]: a change is reported again on every later fetch until the feed
    shows the first tuples again. *)
Theorem detect_run_first (l0 : list Airdrop) (o0 : list (string * JsVal))
        (ds : list (option Payload)) :
  exists answers,
    detect_run None (Some (mkPayload (Some l0) o0) :: ds)
    = (false :: answers, hash_of l0 o0)
    /\ Forall2 (fun d changed =>
                  changed = true <-> tuples_of d <> Some (map hash_tuple l0))
               ds answers.
Proof.
  exists (map (fun d => negb (hash_eqb (generateDataHash d) (hash_of l0 o0))) ds).
  split.
  - cbn [detect_run]. unfold detectDataChanges at 1.
    cbn [hash_truthy andb].
    fold (hash_of l0 o0).
    now rewrite (detect_run_frozen (hash_of l0 o0) ds eq_refl).
  - induction ds as [|d ds IH]; cbn [map]; constructor; [|exact IH].
    rewrite <- generateDataHash_tuples with (o0 := o0).
    destruct (hash_eqb (generateDataHash d) (hash_of l0 o0)) eqn:E;
      cbn [negb].
    + apply hash_eqb_eq in E. split; [discriminate | congruence].
    + split; [|reflexivity]. intros _ H.
      apply hash_eqb_eq in H. congruence.
Qed.

(** * Further properties of the ordering *)

(** X6: over events whose dates and times, where present, have the shapes
    [YYYY-MM-DD] and [HH:MM], the sorted collection is the only
    arrangement of the events that is sorted by the comparator and keeps
    events of equal rank in their input order: every stable sort gives the
    array that the model gives.  Sorting a sorted collection changes
    nothing, so sorting twice is sorting once. *)
Theorem sortAirdrops_unique (l : list Airdrop) :
  Forall (fun a => well_formed a = true) l ->
  (forall s,
      Permutation l s ->
      StronglySorted ordered_before s ->
      (forall x, In x l ->
                 filter (same_rank compareAirdrops x) s
                 = filter (same_rank compareAirdrops x) l) ->
      s = sortAirdrops l)
  /\ (StronglySorted ordered_before l -> sortAirdrops l = l)
  /\ sortAirdrops (sortAirdrops l) = sortAirdrops l
  /\ List.length (sortAirdrops l) = List.length l.
Proof.
  intros W. split; [|split; [|split]].
  - intros s P S F.
    assert (Ws : Forall (fun a => well_formed a = true) s)
      by (eapply Permutation_Forall; eauto).
    rewrite (sortAirdrops_lexical l W).
    apply (stable_sorted_unique compareLexical compareLexical_total).
    + rewrite <- P. apply sort_perm.
    + now apply ordered_before_cmp_le.
    + apply sort_sorted; [exact compareLexical_total | exact compareLexical_trans].
    + intros x Hx.
      assert (Il : In x l)
        by (eapply Permutation_in; [apply Permutation_sym, P | exact Hx]).
      assert (Wx : well_formed x = true)
        by (rewrite Forall_forall in W; auto).
      rewrite (sort_stable compareLexical compareLexical_trans).
      rewrite <- !(same_rank_lexical x) by auto.
      now apply F.
  - intros S. rewrite (sortAirdrops_lexical l W).
    apply sort_sorted_id. now apply ordered_before_cmp_le.
  - rewrite (sortAirdrops_lexical _ (proj2 (sortAirdrops_well_formed l) W)).
    rewrite (sortAirdrops_lexical l W).
    apply sort_sorted_id, sort_sorted;
      [exact compareLexical_total | exact compareLexical_trans].
  - symmetry. apply Permutation_length, sort_perm.
Qed.

Lemma sortAirdrops_unique_witness :
  sortAirdrops (sortAirdrops [phase2_event; undated_announced; at_ten;
                              event_tomorrow])
  = sortAirdrops [phase2_event; undated_announced; at_ten; event_tomorrow]
  /\ sortAirdrops [phase2_event; undated_announced; at_ten; event_tomorrow]
     = [event_tomorrow; phase2_event; at_ten; undated_announced].
Proof.
  split; [|reflexivity].
  apply (sortAirdrops_unique [phase2_event; undated_announced; at_ten;
                              event_tomorrow]).
  repeat constructor.
Defined.

(** X7: on events whose dates and times, where present, have the shapes
    [YYYY-MM-DD] and [HH:MM], the comparator is a consistent comparison
    function: it answers -1, 0 or 1; an event compares 0 with itself;
    swapping the arguments negates the answer; "not after" and "of equal
    rank" are transitive; and the answer is 0 exactly for two events of
    one date that both have no time or have the same time. *)
Theorem compareAirdrops_consistent (a b c : Airdrop) :
  well_formed a = true -> well_formed b = true -> well_formed c = true ->
  (compareAirdrops a b = -1 \/ compareAirdrops a b = 0
   \/ compareAirdrops a b = 1)
  /\ compareAirdrops a a = 0
  /\ compareAirdrops b a = - compareAirdrops a b
  /\ (compareAirdrops a b <= 0 -> compareAirdrops b c <= 0 ->
      compareAirdrops a c <= 0)
  /\ (compareAirdrops a b = 0 -> compareAirdrops b c = 0 ->
      compareAirdrops a c = 0)
  /\ (compareAirdrops a b = 0
      <-> or_empty (date a) = or_empty (date b)
          /\ (if truthy (time a) then
                truthy (time b) = true
                /\ or_empty (time a) = or_empty (time b)
              else truthy (time b) = false)).
Proof.
  intros Wa Wb Wc.
  rewrite !compareAirdrops_lexical by assumption.
  split; [apply compareLexical_range|].
  split; [pose proof (compareLexical_antisym a a); lia|].
  split; [apply compareLexical_antisym|].
  split; [exact (compareLexical_trans a b c)|].
  split; [|apply compareLexical_zero].
  intros Hab Hbc.
  pose proof (compareLexical_antisym a b).
  pose proof (compareLexical_antisym b c).
  pose proof (compareLexical_antisym a c).
  assert (compareLexical a c <= 0)
    by (apply (compareLexical_trans a b c); unfold cmp_le; lia).
  assert (compareLexical c a <= 0)
    by (apply (compareLexical_trans c b a); unfold cmp_le; lia).
  lia.
Qed.

Lemma compareAirdrops_consistent_witness :
  compareAirdrops event_tomorrow phase2_event = -1
  /\ compareAirdrops phase2_event event_tomorrow
     = - compareAirdrops event_tomorrow phase2_event
  /\ (compareAirdrops event_tomorrow phase2_event <= 0 ->
      compareAirdrops phase2_event undated_announced <= 0 ->
      compareAirdrops event_tomorrow undated_announced <= 0).
Proof.
  split; [reflexivity|].
  pose proof (compareAirdrops_consistent event_tomorrow phase2_event
                undated_announced eq_refl eq_refl eq_refl)
    as (_ & _ & S & T & _).
  split; [exact S | exact T].
Defined.

(** * Further properties of the orchestrator *)

Lemma stored_hash_truthy (prev : option string) (data : Payload) (l : list Airdrop) :
  airdrops data = Some l ->
  hash_truthy (snd (detectDataChanges prev (Some data))) = true.
Proof.
  intros Hl. destruct (hash_truthy prev) eqn:Ht.
  - now rewrite (detectDataChanges_frozen prev _ Ht).
  - unfold detectDataChanges. rewrite Ht. cbn [andb snd].
    unfold generateDataHash. rewrite Hl. reflexivity.
Qed.

Lemma stored_hash_frozen (prev : option string) (d : option Payload) :
  hash_truthy prev = true -> snd (detectDataChanges prev d) = prev.
Proof. intros Ht. now rewrite (detectDataChanges_frozen prev d Ht). Qed.

(** The globals after a refresh that fetched [data] at [t]. *)
Lemma refreshed_ok (prev : option string) (data : Payload) (t : Z)
      (tz : Z) (w w1 : World) :
  fetchDataFromAPI tz w = (Normal data, w1) ->
  server_ok (mkServer (Some data) (Some t)
                      (snd (detectDataChanges prev (Some data)))).
Proof.
  intros F. right.
  destruct (fetchDataFromAPI_sorts _ _ _ _ F)
    as (response & raw & processed & _ & _ & _ & _ & ->).
  exists (mkPayload (Some (sortAirdrops processed)) (others response)),
    (sortAirdrops processed), t.
  cbn [cachedData lastFetchTime previousDataHash airdrops].
  repeat split; auto.
  - intros W. apply sortAirdrops_sorted. now apply sortAirdrops_well_formed.
  - now apply (stored_hash_truthy prev _ (sortAirdrops processed)).
Qed.

Lemma updateData_cases (tz : Z) (s : Server) (w : World) :
  (exists data w1,
      fetchDataFromAPI tz w = (Normal data, w1)
      /\ updateData tz s w
         = (mkServer (Some data) (Some (clock w1))
                     (snd (detectDataChanges (previousDataHash s) (Some data))),
            w1))
  \/ (exists e w1,
         fetchDataFromAPI tz w = (Throw e, w1) /\ updateData tz s w = (s, w1)).
Proof.
  unfold updateData.
  destruct (fetchDataFromAPI tz w) as [[data|e] w1].
  - left. exists data, w1. split; [reflexivity|].
    now destruct (detectDataChanges (previousDataHash s) (Some data)).
  - right. now exists e, w1.
Qed.

Lemma fetch_data_cases (tz : Z) (s : Server) (w : World) :
  (exists cached,
      cache_hit s (clock w) = Some cached
      /\ fetch_data tz s w = (Ok200 cached None, s, w))
  \/ (cache_hit s (clock w) = None
      /\ exists data w1,
        fetchDataFromAPI tz w = (Normal data, w1)
        /\ fetch_data tz s w
           = (Ok200 data
                    (Some (fst (detectDataChanges (previousDataHash s) (Some data)),
                           toISOString (clock w1))),
              mkServer (Some data) (Some (clock w1))
                       (snd (detectDataChanges (previousDataHash s) (Some data))),
              w1))
  \/ (cache_hit s (clock w) = None
      /\ exists e w1,
        fetchDataFromAPI tz w = (Throw e, w1)
        /\ fetch_data tz s w = (Error500 (toISOString (clock w1)), s, w1)).
Proof.
  unfold fetch_data.
  destruct (cache_hit s (clock w)) as [cached|].
  - left. now exists cached.
  - right. destruct (fetchDataFromAPI tz w) as [[data|e] w1].
    + left. split; [reflexivity|]. exists data, w1. split; [reflexivity|].
      now destruct (detectDataChanges (previousDataHash s) (Some data)).
    + right. split; [reflexivity|]. now exists e, w1.
Qed.

Lemma updateData_ok (tz : Z) (s : Server) (w : World) :
  server_ok s -> server_ok (fst (updateData tz s w)).
Proof.
  intros H.
  destruct (updateData_cases tz s w) as [(data & w1 & F & ->)|(e & w1 & F & ->)];
    cbn [fst]; [|exact H].
  exact (refreshed_ok _ _ _ _ _ _ F).
Qed.

Lemma fetch_data_ok (tz : Z) (s : Server) (w : World) :
  server_ok s -> server_ok (snd (fst (fetch_data tz s w))).
Proof.
  intros H.
  destruct (fetch_data_cases tz s w)
    as [(c & _ & ->)|[(_ & data & w1 & F & ->)|(_ & e & w1 & F & ->)]];
    cbn [fst snd]; auto.
  exact (refreshed_ok _ _ _ _ _ _ F).
Qed.

Lemma timer_ticks_ok (tz : Z) (instants : list Z) (s : Server) (w : World) :
  server_ok s -> server_ok (fst (timer_ticks tz instants s w)).
Proof.
  revert s w. induction instants as [|t instants IH]; intros s w H;
    cbn [timer_ticks]; [exact H|].
  pose proof (updateData_ok tz s (at_clock w t) H) as H1.
  destruct (updateData tz s (at_clock w t)) as [s1 w1]. now apply IH.
Qed.

(** X8: what the service keeps in its globals.  From the start on, after
    any run of [updateData], of requests to [/fetch-data] and of the
    polling loop, either nothing is stored yet, or a body is cached
    together with the time of its fetch and a fingerprint; and the events
    of the cached body, when their dates and times have the shapes
    [YYYY-MM-DD] and [HH:MM], are sorted.  So [/last-update] reports a
    time exactly when it reports cached data. *)
Theorem server_ok_invariant :
  server_ok initial_server
  /\ (forall tz s w, server_ok s -> server_ok (fst (updateData tz s w)))
  /\ (forall tz s w, server_ok s -> server_ok (snd (fst (fetch_data tz s w))))
  /\ (forall tz instants s w,
         server_ok s -> server_ok (fst (startPolling tz instants s w)))
  /\ (forall s, server_ok s ->
                (fst (last_update s) = None <-> snd (last_update s) = false)).
Proof.
  split; [now left|]. split; [exact updateData_ok|].
  split; [exact fetch_data_ok|]. split.
  - intros tz instants s w H. unfold startPolling.
    pose proof (updateData_ok tz s w H) as H1.
    destruct (updateData tz s w) as [s1 w1]. now apply timer_ticks_ok.
  - intros s [->|(data & l & t & Hc & _ & _ & Ht & _)]; unfold last_update.
    + cbn. tauto.
    + rewrite Hc, Ht. cbn. split; discriminate.
Qed.

(** What a fetch does to the world: one call more, the clock moved by
    the time the call took. *)
Lemma fetchDataFromAPI_world (tz : Z) (w : World) :
  snd (fetchDataFromAPI tz w)
  = mkWorld (clock w + fst (upstream w (upstream_calls w)))
            (S (upstream_calls w)) (upstream w).
Proof.
  unfold fetchDataFromAPI, fetch_and_process, axios_get.
  destruct (upstream w (upstream_calls w)) as [dt response].
  now destruct (_ <- response ;; _).
Qed.

(** X9: the flag [hasChanges] of a live refresh compares the new events
    with the first collection fingerprinted since the start, not with the
    snapshot cached before.  With the fingerprint of [l0] stored, the flag
    is true exactly when the tuples of the new body are not those of [l0],
    and the stored fingerprint stays that of [l0] while the cached body is
    replaced; with nothing stored, the flag is false and the fingerprint
    of the new body is stored. *)
Theorem hasChanges_against_first :
  (forall tz s w l0 o0 data changed ts s' w',
      previousDataHash s = hash_of l0 o0 ->
      fetch_data tz s w = (Ok200 data (Some (changed, ts)), s', w') ->
      (changed = true <-> tuples_of (Some data) <> Some (map hash_tuple l0))
      /\ previousDataHash s' = hash_of l0 o0
      /\ cachedData s' = Some data)
  /\ (forall tz s w data changed ts s' w',
         previousDataHash s = None ->
         fetch_data tz s w = (Ok200 data (Some (changed, ts)), s', w') ->
         changed = false
         /\ previousDataHash s' = generateDataHash (Some data)
         /\ cachedData s' = Some data).
Proof.
  split.
  - intros tz s w l0 o0 data changed ts s' w' Hp H.
    destruct (fetch_data_cases tz s w)
      as [(c & _ & E)|[(_ & d & w1 & F & E)|(_ & e & w1 & F & E)]];
      rewrite E in H; try discriminate.
    injection H as -> <- _ <- _. rewrite Hp.
    rewrite (detectDataChanges_frozen (hash_of l0 o0) _ eq_refl).
    cbn [fst snd previousDataHash cachedData]. repeat split; auto.
    + intros Hc Ht. apply generateDataHash_tuples with (o0 := o0) in Ht.
      rewrite Ht in Hc.
      replace (hash_eqb (hash_of l0 o0) (hash_of l0 o0)) with true in Hc
        by (symmetry; now apply hash_eqb_eq).
      discriminate.
    + intros Hn.
      destruct (hash_eqb (generateDataHash (Some data)) (hash_of l0 o0)) eqn:E';
        [|reflexivity].
      apply hash_eqb_eq in E'.
      apply (generateDataHash_tuples (Some data) l0 o0) in E'. contradiction.
  - intros tz s w data changed ts s' w' Hp H.
    destruct (fetch_data_cases tz s w)
      as [(c & _ & E)|[(_ & d & w1 & F & E)|(_ & e & w1 & F & E)]];
      rewrite E in H; try discriminate.
    injection H as -> <- _ <- _. rewrite Hp.
    cbn [fst snd previousDataHash cachedData]. auto.
Qed.

Lemma hasChanges_against_first_witness :
  (true = true
   <-> tuples_of (Some sample_fetched) <> Some (map hash_tuple [undated_announced]))
  /\ previousDataHash (snd (fst (fetch_data 480 tracking_server sample_feed)))
     = hash_of [undated_announced] []
  /\ cachedData (snd (fst (fetch_data 480 tracking_server sample_feed)))
     = Some sample_fetched.
Proof.
  eapply (proj1 hasChanges_against_first 480 tracking_server sample_feed
                [undated_announced] [] sample_fetched true).
  - reflexivity.
  - vm_compute. reflexivity.
Defined.

(** A cached body younger than the window is what a request gets. *)
Lemma cache_hit_served (tz : Z) (s : Server) (w : World) (cached : Payload) (t : Z) :
  cachedData s = Some cached -> lastFetchTime s = Some t ->
  clock w - t < freshness_window ->
  fetch_data tz s w = (Ok200 cached None, s, w).
Proof.
  intros Hc Ht Hw. unfold fetch_data.
  replace (cache_hit s (clock w)) with (Some cached); [reflexivity|].
  symmetry. apply cache_hit_spec. split; [exact Hc|]. now exists t.
Qed.

(** X10: a request that comes less than five minutes after a refresh, by
    the timer or by a request, is answered with the body of that refresh,
    without a call to the feed and without the two properties of a live
    answer; a request that comes five minutes after it or later calls the
    feed once. *)
Theorem request_after_refresh :
  (forall tz s w data w1 t,
      fetchDataFromAPI tz w = (Normal data, w1) ->
      t - clock w1 < freshness_window ->
      fetch_data tz (fst (updateData tz s w)) (at_clock w1 t)
      = (Ok200 data None, fst (updateData tz s w), at_clock w1 t))
  /\ (forall tz s w data w1 t,
         cache_hit s (clock w) = None ->
         fetchDataFromAPI tz w = (Normal data, w1) ->
         t - clock w1 < freshness_window ->
         fetch_data tz (snd (fst (fetch_data tz s w))) (at_clock w1 t)
         = (Ok200 data None, snd (fst (fetch_data tz s w)), at_clock w1 t))
  /\ (forall tz s w data w1 t,
         fetchDataFromAPI tz w = (Normal data, w1) ->
         freshness_window <= t - clock w1 ->
         upstream_calls
           (snd (fetch_data tz (fst (updateData tz s w)) (at_clock w1 t)))
         = S (upstream_calls w1)).
Proof.
  split; [|split].
  - intros tz s w data w1 t F Ht.
    destruct (updateData_cases tz s w) as [(d & w' & F' & ->)|(e & w' & F' & _)];
      rewrite F in F'; [|discriminate].
    injection F' as <- <-. cbn [fst].
    apply (cache_hit_served tz _ _ data (clock w1)); auto.
  - intros tz s w data w1 t Hm F Ht.
    destruct (fetch_data_cases tz s w)
      as [(c & Hc & _)|[(_ & d & w' & F' & ->)|(_ & e & w' & F' & _)]];
      [congruence| |rewrite F in F'; discriminate].
    rewrite F in F'. injection F' as <- <-. cbn [fst snd].
    apply (cache_hit_served tz _ _ data (clock w1)); auto.
  - intros tz s w data w1 t F Ht.
    destruct (updateData_cases tz s w) as [(d & w' & F' & ->)|(e & w' & F' & _)];
      rewrite F in F'; [|discriminate].
    injection F' as <- <-. cbn [fst].
    match goal with
    | |- context [fetch_data tz ?s1 ?w2] =>
        destruct (fetch_data_cases tz s1 w2)
        as [(c & Hc & _)|[(_ & d & w' & F' & ->)|(_ & e & w' & F' & ->)]]
    end.
    + apply cache_hit_spec in Hc. destruct Hc as [_ (t' & Ht' & Hlt)].
      cbn [lastFetchTime clock at_clock] in Ht', Hlt.
      injection Ht' as <-. lia.
    + cbn [snd]. exact (fetchDataFromAPI_calls _ _ _ _ F').
    + cbn [snd]. exact (fetchDataFromAPI_calls _ _ _ _ F').
Qed.

Lemma request_after_refresh_witness :
  fetch_data 480 (fst (updateData 480 initial_server sample_feed))
             (at_clock (snd (fetchDataFromAPI 480 sample_feed)) 1704081899999)
  = (Ok200 sample_fetched None,
     fst (updateData 480 initial_server sample_feed),
     at_clock (snd (fetchDataFromAPI 480 sample_feed)) 1704081899999).
Proof.
  apply (proj1 request_after_refresh 480 initial_server sample_feed
               sample_fetched (snd (fetchDataFromAPI 480 sample_feed))
               1704081899999).
  - vm_compute. reflexivity.
  - vm_compute. reflexivity.
Defined.

Lemma updateData_world (tz : Z) (s : Server) (w : World) :
  snd (updateData tz s w) = snd (fetchDataFromAPI tz w).
Proof.
  destruct (updateData_cases tz s w) as [(d & w1 & F & ->)|(e & w1 & F & ->)];
    now rewrite F.
Qed.

(** What one [updateData] keeps: a cached body stays cached, a stored
    fingerprint stays the same, and nothing changes when the feed fails. *)
Lemma updateData_keeps (tz : Z) (s : Server) (w : World) :
  (cachedData s <> None -> cachedData (fst (updateData tz s w)) <> None)
  /\ (hash_truthy (previousDataHash s) = true ->
      previousDataHash (fst (updateData tz s w)) = previousDataHash s)
  /\ ((exists e, snd (upstream w (upstream_calls w)) = Throw e) ->
      fst (updateData tz s w) = s).
Proof.
  destruct (updateData_cases tz s w) as [(d & w1 & F & ->)|(e & w1 & F & ->)];
    cbn [fst cachedData previousDataHash].
  - repeat split.
    + discriminate.
    + apply stored_hash_frozen.
    + intros [e He]. exfalso. revert F.
      unfold fetchDataFromAPI, fetch_and_process, axios_get.
      destruct (upstream w (upstream_calls w)) as [dt r]. cbn [snd] in He.
      subst r. cbn [bind]. discriminate.
  - auto.
Qed.

Lemma timer_ticks_keeps (tz : Z) (instants : list Z) (s : Server) (w : World) :
  upstream_calls (snd (timer_ticks tz instants s w))
  = (upstream_calls w + List.length instants)%nat
  /\ upstream (snd (timer_ticks tz instants s w)) = upstream w
  /\ (cachedData s <> None ->
      cachedData (fst (timer_ticks tz instants s w)) <> None)
  /\ (hash_truthy (previousDataHash s) = true ->
      previousDataHash (fst (timer_ticks tz instants s w)) = previousDataHash s)
  /\ ((forall n, exists e, snd (upstream w n) = Throw e) ->
      fst (timer_ticks tz instants s w) = s).
Proof.
  revert s w. induction instants as [|t instants IH]; intros s w;
    cbn [timer_ticks List.length].
  - cbn [fst snd]. repeat split; auto; lia.
  - pose proof (updateData_world tz s (at_clock w t)) as W.
    pose proof (updateData_keeps tz s (at_clock w t)) as (K1 & K2 & K3).
    rewrite fetchDataFromAPI_world in W.
    destruct (updateData tz s (at_clock w t)) as [s1 w1].
    cbn [fst snd] in *. subst w1.
    destruct (IH s1 (mkWorld (clock (at_clock w t)
                              + fst (upstream (at_clock w t)
                                              (upstream_calls (at_clock w t))))
                             (S (upstream_calls (at_clock w t)))
                             (upstream (at_clock w t))))
      as (I1 & I2 & I3 & I4 & I5).
    cbn [upstream_calls upstream at_clock] in *.
    repeat split.
    + rewrite I1. lia.
    + exact I2.
    + auto.
    + intros H. rewrite I4; [auto|]. rewrite (K2 H). exact H.
    + intros H. rewrite (I5 H). apply K3. apply H.
Qed.

(** X11: the polling loop.  [startPolling] followed by any number of
    timer callbacks calls the feed once at the start and once per
    callback, whether the calls succeed or fail.  A failing call never
    clears the cache: a body once cached stays cached, a fingerprint once
    stored stays the same, and if every call fails the globals end as they
    began. *)
Theorem startPolling_keeps (tz : Z) (instants : list Z) (s : Server) (w : World) :
  upstream_calls (snd (startPolling tz instants s w))
  = (upstream_calls w + 1 + List.length instants)%nat
  /\ (cachedData s <> None ->
      cachedData (fst (startPolling tz instants s w)) <> None)
  /\ (hash_truthy (previousDataHash s) = true ->
      previousDataHash (fst (startPolling tz instants s w))
      = previousDataHash s)
  /\ ((forall n, exists e, snd (upstream w n) = Throw e) ->
      fst (startPolling tz instants s w) = s).
Proof.
  unfold startPolling.
  pose proof (updateData_world tz s w) as W.
  pose proof (updateData_keeps tz s w) as (K1 & K2 & K3).
  rewrite fetchDataFromAPI_world in W.
  destruct (updateData tz s w) as [s1 w1]. cbn [fst snd] in *. subst w1.
  destruct (timer_ticks_keeps tz instants s1
              (mkWorld (clock w + fst (upstream w (upstream_calls w)))
                       (S (upstream_calls w)) (upstream w)))
    as (I1 & I2 & I3 & I4 & I5).
  cbn [upstream_calls upstream] in *. repeat split.
  - rewrite I1. lia.
  - auto.
  - intros H. rewrite I4; [auto|]. rewrite (K2 H). exact H.
  - intros H. rewrite (I5 H). apply K3. apply H.
Qed.

(** The resolver throws nothing but the [RangeError]. *)
Lemma resolver_throws_aux (tz now : Z) (e : Airdrop) (err : JsError) :
  resolve tz now e = Throw err -> err = RangeError.
Proof.
  unfold resolve, processAirdrop, shift_phase2.
  destruct (phase_is_2 e); cbn [bind]; [|discriminate].
  destruct (truthy (date e)); cbn [bind]; [|discriminate].
  destruct (setHours1 _ _ _); cbn [bind]; [discriminate|].
  now intros [= <-].
Qed.

(** X12: what [fetchDataFromAPI] returns.  It calls the feed once.  When
    it returns a body, the feed answered a body with a list of events, the
    events returned are the resolved events of that list, sorted, as many
    as came, and the other properties of the body are passed on as they
    came.  It throws when the feed fails, when the body has no events, or
    when the resolver throws on an event; whatever was thrown, it throws
    its own error. *)
Theorem fetchDataFromAPI_contract (tz : Z) (w : World) :
  upstream_calls (snd (fetchDataFromAPI tz w)) = S (upstream_calls w)
  /\ (forall data,
         fst (fetchDataFromAPI tz w) = Normal data ->
         exists response raw processed,
           snd (upstream w (upstream_calls w)) = Normal response
           /\ airdrops response = Some raw
           /\ Forall2 (fun e o =>
                         resolve tz (clock (snd (fetchDataFromAPI tz w))) e
                         = Normal o) raw processed
           /\ airdrops data = Some (sortAirdrops processed)
           /\ Permutation processed (sortAirdrops processed)
           /\ List.length (sortAirdrops processed) = List.length raw
           /\ others data = others response)
  /\ (forall err,
         fst (fetchDataFromAPI tz w) = Throw err ->
         err = FetchError
         /\ ((exists e, snd (upstream w (upstream_calls w)) = Throw e)
             \/ (exists response,
                    snd (upstream w (upstream_calls w)) = Normal response
                    /\ airdrops response = None)
             \/ (exists response raw e,
                    snd (upstream w (upstream_calls w)) = Normal response
                    /\ airdrops response = Some raw
                    /\ In e raw
                    /\ resolve tz (clock (snd (fetchDataFromAPI tz w))) e
                       = Throw RangeError))).
Proof.
  rewrite fetchDataFromAPI_world. cbn [upstream_calls clock].
  split; [reflexivity|].
  unfold fetchDataFromAPI, fetch_and_process, axios_get.
  destruct (upstream w (upstream_calls w)) as [dt [response|e]];
    cbn [bind fst snd clock].
  - destruct (airdrops response) as [raw|] eqn:R.
    + destruct (processAirdropStatus tz (clock w + dt) raw) as [processed|e]
        eqn:P; cbn [bind fst]; split; try discriminate.
      * intros data [= <-]. exists response, raw, processed.
        cbn [airdrops others]. repeat split; auto.
        -- now apply mapM_Forall2.
        -- apply sort_perm.
        -- apply mapM_Forall2 in P. apply Forall2_length in P.
           rewrite P. symmetry. apply Permutation_length, sort_perm.
      * intros err [= <-]. split; [reflexivity|]. right. right.
        apply mapM_Throw in P.
        destruct P as (l1 & x & l2 & -> & Hx & _).
        assert (e = RangeError).
        { apply (resolver_throws_aux tz (clock w + dt) x e). exact Hx. }
        subst e. exists response, (l1 ++ x :: l2)%list, x.
        repeat split; auto. apply in_or_app. right. now left.
    + cbn [fst]. split; [discriminate|].
      intros err [= <-]. split; [reflexivity|]. right. left.
      now exists response.
  - split; [discriminate|].
    intros err [= <-]. split; [reflexivity|]. left. now exists e.
Qed.

(** * Round trips of dates and times *)

(** The civil date of a day number is a date of that day number. *)
Lemma civil_round_trip (z y m d : Z) :
  civil_from_days z = (y, m, d) ->
  days_from_civil y m d = z /\ 1 <= m <= 12 /\ 1 <= d <= 31.
Proof.
  unfold civil_from_days.
  remember ((z + 719468) / 146097) as era eqn:Eera.
  remember (z + 719468 - era * 146097) as doe eqn:Edoe.
  remember ((doe - doe / 1460 + doe / 36524 - doe / 146096) / 365) as yoe
    eqn:Eyoe.
  remember (doe - (365 * yoe + yoe / 4 - yoe / 100)) as doy eqn:Edoy.
  remember ((5 * doy + 2) / 153) as mp eqn:Emp.
  assert (Hdoe : 0 <= doe <= 146096)
    by (subst doe era; Z.div_mod_to_equations; lia).
  assert (Hy : 0 <= yoe <= 399 /\ 0 <= doy <= 365)
    by (subst doy yoe; Z.div_mod_to_equations; lia).
  assert (Hm : 0 <= mp <= 11 /\ 1 <= doy - (153 * mp + 2) / 5 + 1 <= 31)
    by (subst mp; Z.div_mod_to_equations; lia).
  intros E. apply pair_equal_spec in E. destruct E as [E <-].
  apply pair_equal_spec in E. destruct E as [<- <-].
  unfold days_from_civil.
  assert (Hera : forall a, a = 400 * era + yoe -> a / 400 = era)
    by (intros a ->; symmetry; apply Z.div_unique with (r := yoe); lia).
  destruct (Z.ltb_spec mp 10).
  - destruct (Z.leb_spec (mp + 3) 2); [lia|].
    destruct (Z.ltb_spec 2 (mp + 3)); try lia.
    rewrite (Hera (yoe + era * 400)) by lia.
    replace (yoe + era * 400 - era * 400) with yoe by lia.
    replace (mp + 3 - 3) with mp by lia.
    repeat split; lia.
  - destruct (Z.leb_spec (mp - 9) 2); try lia.
    destruct (Z.ltb_spec 2 (mp - 9)); try lia.
    rewrite (Hera (yoe + era * 400 + 1 - 1)) by lia.
    replace (yoe + era * 400 + 1 - 1 - era * 400) with yoe by lia.
    replace (mp - 9 + 9) with mp by lia.
    repeat split; lia.
Qed.

Lemma digit_char_code (z : Z) :
  N_of_ascii (digit_char z) = Z.to_N (48 + z mod 10).
Proof.
  unfold digit_char. apply N_ascii_embedding.
  pose proof (Z.mod_pos_bound z 10 ltac:(lia)). lia.
Qed.

Lemma digit_char_val (z : Z) : digit_val (digit_char z) = z mod 10.
Proof.
  unfold digit_val. rewrite digit_char_code.
  pose proof (Z.mod_pos_bound z 10 ltac:(lia)). lia.
Qed.

Lemma digit_char_is_digit (z : Z) : is_digit (digit_char z) = true.
Proof.
  unfold is_digit. rewrite digit_char_code.
  pose proof (Z.mod_pos_bound z 10 ltac:(lia)).
  apply andb_true_intro. split; apply N.leb_le; lia.
Qed.

Lemma digit_char_not_colon (z : Z) : Ascii.eqb (digit_char z) ":" = false.
Proof.
  apply Ascii.eqb_neq. intros E.
  apply (f_equal N_of_ascii) in E. rewrite digit_char_code in E.
  pose proof (Z.mod_pos_bound z 10 ltac:(lia)).
  change (N_of_ascii ":") with 58%N in E. lia.
Qed.

(** Two digits written are the two digits read. *)
Lemma two_digits_pad (i : nat) (s : string) (z : Z) :
  0 <= z <= 99 ->
  substring i 2 s = pad_digits 2 z -> two_digits i s = Some z.
Proof.
  intros Hz E. unfold two_digits. rewrite E.
  cbn [pad_digits append String.length Nat.eqb all_digits digits_value].
  rewrite !digit_char_is_digit, !digit_char_val. cbn [andb]. f_equal.
  Z.div_mod_to_equations. lia.
Qed.

Lemma four_digits_pad (i : nat) (s : string) (z : Z) :
  0 <= z <= 9999 ->
  substring i 4 s = pad_digits 4 z -> four_digits i s = Some z.
Proof.
  intros Hz E. unfold four_digits. rewrite E.
  cbn [pad_digits append String.length Nat.eqb all_digits digits_value].
  rewrite !digit_char_is_digit, !digit_char_val. cbn [andb]. f_equal.
  Z.div_mod_to_equations. lia.
Qed.

(** The first ten characters of an ISO string of a year from 0 to 9999. *)
Lemma toISOString_date (t y m d : Z) :
  civil_from_days (Day t) = (y, m, d) -> 0 <= y <= 9999 ->
  slice0 10 (toISOString t)
  = (pad_digits 4 y ++ "-" ++ pad_digits 2 m ++ "-" ++ pad_digits 2 d)%string.
Proof.
  intros E Hy. unfold toISOString, iso_year, slice0. rewrite E.
  destruct (Z.leb_spec 0 y); [|lia]. destruct (Z.leb_spec y 9999); [|lia].
  cbn [andb pad_digits append substring]. reflexivity.
Qed.

Lemma date_text_reads_back (tz y m d : Z) :
  0 <= y <= 9999 -> 1 <= m <= 12 -> 1 <= d <= 31 ->
  Date_parse tz (pad_digits 4 y ++ "-" ++ pad_digits 2 m ++ "-"
                 ++ pad_digits 2 d)
  = TimeClip (days_from_civil y m d * msPerDay)
  /\ parse_ymd (pad_digits 4 y ++ "-" ++ pad_digits 2 m ++ "-"
                ++ pad_digits 2 d)
     = Some (days_from_civil y m d)
  /\ String.length (pad_digits 4 y ++ "-" ++ pad_digits 2 m ++ "-"
                    ++ pad_digits 2 d) = 10%nat.
Proof.
  intros Hy Hm Hd.
  assert (P : parse_ymd (pad_digits 4 y ++ "-" ++ pad_digits 2 m ++ "-"
                         ++ pad_digits 2 d)
              = Some (days_from_civil y m d)).
  { unfold parse_ymd.
    rewrite (four_digits_pad 0 _ y Hy) by reflexivity.
    rewrite (two_digits_pad 5 _ m) by (try lia; reflexivity).
    rewrite (two_digits_pad 8 _ d) by (try lia; reflexivity).
    replace (char_at_is 4 "-" _) with true by reflexivity.
    replace (char_at_is 7 "-" _) with true by reflexivity.
    destruct (Z.leb_spec 1 m); [|lia]. destruct (Z.leb_spec m 12); [|lia].
    destruct (Z.leb_spec 1 d); [|lia]. destruct (Z.leb_spec d 31); [|lia].
    reflexivity. }
  split; [|split; [exact P | reflexivity]].
  unfold Date_parse. rewrite P. reflexivity.
Qed.

(** The date the time shift writes is read back as the UTC day of the
    instant. *)
Lemma toISOString_date_reads_back (tz t : Z) :
  0 <= utc_year t <= 9999 ->
  Date_parse tz (slice0 10 (toISOString t)) = Some (Day t * msPerDay)
  /\ parse_ymd (slice0 10 (toISOString t)) = Some (Day t)
  /\ String.length (slice0 10 (toISOString t)) = 10%nat.
Proof.
  unfold utc_year. intros Hy.
  destruct (civil_from_days (Day t)) as [[y m] d] eqn:E. cbn [fst] in Hy.
  destruct (civil_round_trip _ _ _ _ E) as (R & Hm & Hd).
  rewrite (toISOString_date t y m d E Hy).
  destruct (date_text_reads_back tz y m d Hy Hm Hd) as (D & P & L).
  rewrite D, P, L, R. repeat split.
  rewrite R in P. apply parse_ymd_range in P.
  unfold TimeClip, msPerDay.
  destruct (Z.leb_spec (Z.abs (Day t * 86400000)) 8640000000000000);
    [reflexivity | lia].
Qed.

Lemma split_hh_mm (a b c d : Z) :
  split ":" (String (digit_char a)
                    (String (digit_char b)
                            (String ":" (String (digit_char c)
                                                (String (digit_char d) "")))))
  = [String (digit_char a) (String (digit_char b) "");
     String (digit_char c) (String (digit_char d) "")].
Proof.
  unfold split. cbn [split_aux].
  rewrite !digit_char_not_colon. cbn [append Ascii.eqb Bool.eqb].
  reflexivity.
Qed.

Lemma Number_two_digits (z : Z) :
  0 <= z <= 99 -> Number (pad_digits 2 z) = Some z.
Proof.
  intros Hz. unfold Number.
  cbn [pad_digits append all_digits digits_value].
  rewrite !digit_char_is_digit, !digit_char_val. cbn [andb]. f_equal.
  Z.div_mod_to_equations. lia.
Qed.

Lemma clock_range (tz t : Z) :
  0 <= getHours tz t <= 23 /\ 0 <= getMinutes tz t <= 59.
Proof.
  unfold getHours, getMinutes, TimeWithinDay, msPerDay, msPerHour, msPerMinute.
  Z.div_mod_to_equations. lia.
Qed.

(** The time the time shift writes is read back as the hour and the
    minute of the local clock. *)
Lemma toTimeString_reads_back (tz t : Z) :
  truthy (JStr (slice0 5 (toTimeString tz t))) = true
  /\ time_hours (JStr (slice0 5 (toTimeString tz t))) = getHours tz t
  /\ time_minutes (JStr (slice0 5 (toTimeString tz t))) = getMinutes tz t.
Proof.
  destruct (clock_range tz t) as [Hh Hm].
  unfold time_hours, time_minutes, toTimeString, slice0.
  fold (getHours tz t). fold (getMinutes tz t).
  cbn [pad_digits append substring or_empty truthy String.eqb negb].
  rewrite split_hh_mm. cbn [map component nth_error].
  change (String (digit_char (getHours tz t / 10))
                 (String (digit_char (getHours tz t)) ""))
    with (pad_digits 2 (getHours tz t)).
  change (String (digit_char (getMinutes tz t / 10))
                 (String (digit_char (getMinutes tz t)) ""))
    with (pad_digits 2 (getMinutes tz t)).
  rewrite !Number_two_digits by lia. auto.
Qed.

(** The status of a resolved event whose date is a well-formed date, on
    a host at or east of UTC, in one expression. *)
Lemma resolve_expected_status (tz now : Z) (e out : Airdrop) (s : string) (d : Z) :
  0 <= tz < 1440 -> now <= 8640000000000000 -> valid_now tz now ->
  resolve tz now e = Normal out ->
  date out = JStr s -> String.length s = 10%nat -> parse_ymd s = Some d ->
  status out = expected_status tz now d (time out).
Proof.
  intros Htz Hnow Hv Hr Hd Hl Hp.
  destruct (status_by_calendar_day tz now e out s d Htz Hnow Hv Hr Hd Hl Hp)
    as (B & T & U & A).
  unfold expected_status.
  destruct (Z.ltb_spec d (localDay tz now)); [auto|].
  destruct (Z.eqb_spec d (localDay tz now)) as [E|N]; [|apply A; lia].
  destruct (truthy (time out)) eqn:Ht; cbn [andb]; [|auto].
  destruct (T E eq_refl) as [I [C|C]];
    destruct (Z.leb_spec
                (local_instant tz d (time_hours (time out))
                               (time_minutes (time out))) now); auto.
  - apply I in C. lia.
  - apply I. lia.
Qed.

Lemma resolve_shifted (tz now t' : Z) (e : Airdrop) :
  phase_is_2 e = true -> truthy (date e) = true ->
  shifted_instant tz e = Some t' ->
  resolve tz now e
  = Normal (resolve_status tz (startOfToday tz now) now e
              (set_date_time e (JStr (slice0 10 (toISOString t')))
                             (JStr (slice0 5 (toTimeString tz t'))))).
Proof.
  intros Hp Hd Hs. unfold resolve, processAirdrop.
  now rewrite (shift_phase2_shifted tz e Hp Hd), Hs.
Qed.

(** X13: the date and the time that the time shift writes into a phase 2
    event are read back by the status step without loss: for a shifted
    instant whose UTC year is from 0 to 9999, the date written parses to
    the UTC day of the instant, and the time written gives the hour and
    the minute of the local clock at the instant. *)
Theorem shifted_fields_read_back (tz now t' : Z) (e : Airdrop) :
  phase_is_2 e = true -> truthy (date e) = true ->
  shifted_instant tz e = Some t' -> 0 <= utc_year t' <= 9999 ->
  exists out s,
    resolve tz now e = Normal out
    /\ date out = JStr s
    /\ Date_parse tz s = Some (Day t' * msPerDay)
    /\ truthy (time out) = true
    /\ time_hours (time out) = getHours tz t'
    /\ time_minutes (time out) = getMinutes tz t'.
Proof.
  intros Hp Hd Hs Hy.
  rewrite (resolve_shifted tz now t' e Hp Hd Hs).
  eexists. exists (slice0 10 (toISOString t')). split; [reflexivity|].
  match goal with
  | |- context [resolve_status ?a ?b ?c ?d ?p] =>
      destruct (resolve_status_date_time a b c d p) as [-> ->]
  end.
  cbn [date time set_date_time].
  split; [reflexivity|].
  split; [apply (toISOString_date_reads_back tz t' Hy)|].
  apply toTimeString_reads_back.
Qed.

Lemma shifted_fields_read_back_witness :
  exists out s,
    resolve 480 1704081600000 phase2_event = Normal out
    /\ date out = JStr s
    /\ Date_parse 480 s = Some (Day 1704139200000 * msPerDay)
    /\ truthy (time out) = true
    /\ time_hours (time out) = getHours 480 1704139200000
    /\ time_minutes (time out) = getMinutes 480 1704139200000.
Proof.
  apply (shifted_fields_read_back 480 1704081600000 1704139200000 phase2_event);
    [reflexivity | reflexivity | reflexivity |].
  vm_compute. split; discriminate.
Defined.

(** X14: the status of a phase 2 event on a host at or east of UTC.  With
    the shifted instant [t'], the event is [completed] when the UTC day of
    [t'] is before the local day of [now]; on the same day, when the local
    clock time of [t'], taken on that day, is at most [now]; otherwise it
    is [announced].  The day compared is the UTC day of the shifted
    instant, the time its local clock time. *)
Theorem status_of_shifted_event (tz now t' : Z) (e : Airdrop) :
  0 <= tz < 1440 -> now <= 8640000000000000 -> valid_now tz now ->
  phase_is_2 e = true -> truthy (date e) = true ->
  shifted_instant tz e = Some t' -> 0 <= utc_year t' <= 9999 ->
  status_of (resolve tz now e)
  = Normal (if Day t' <? localDay tz now then completed
            else if Day t' =? localDay tz now then
              if local_instant tz (Day t') (getHours tz t') (getMinutes tz t')
                 <=? now
              then completed else announced
            else announced).
Proof.
  intros Htz Hnow Hv Hp Hd Hs Hy.
  pose proof (resolve_shifted tz now t' e Hp Hd Hs) as R.
  destruct (toISOString_date_reads_back tz t' Hy) as (_ & P & L).
  destruct (toTimeString_reads_back tz t') as (Tt & Th & Tm).
  rewrite R. cbn [status_of]. f_equal.
  rewrite (resolve_expected_status tz now e _ (slice0 10 (toISOString t'))
             (Day t') Htz Hnow Hv R);
    [| apply resolve_status_date_time | exact L | exact P].
  match goal with
  | |- context [time (resolve_status ?a ?b ?c ?d ?p)] =>
      rewrite (proj2 (resolve_status_date_time a b c d p))
  end.
  cbn [time set_date_time]. unfold expected_status.
  now rewrite Tt, Th, Tm.
Qed.

Lemma status_of_shifted_event_witness :
  status_of (resolve 480 1704081600000 phase2_event)
  = Normal (if Day 1704139200000 <? localDay 480 1704081600000 then completed
            else if Day 1704139200000 =? localDay 480 1704081600000 then
              if local_instant 480 (Day 1704139200000)
                               (getHours 480 1704139200000)
                               (getMinutes 480 1704139200000)
                 <=? 1704081600000
              then completed else announced
            else announced).
Proof.
  apply (status_of_shifted_event 480 1704081600000 1704139200000 phase2_event);
    try reflexivity; try lia.
  - eexists; reflexivity.
  - vm_compute. split; discriminate.
Defined.

Lemma resolve_status_record (tz : Z) (today : JsDate) (now : Z) (raw p : Airdrop) :
  truthy (date p) = true ->
  resolve_status tz today now raw p
  = set_status p (status (resolve_status tz today now raw p)) (status raw).
Proof.
  intros Hd. unfold resolve_status. rewrite Hd.
  repeat match goal with
         | |- context [if ?c then _ else _] => destruct c
         end; reflexivity.
Qed.

(** A time written as [HH:MM] is read back as its hour and minute. *)
Lemma hh_mm_reads_back (h m : Z) :
  0 <= h <= 99 -> 0 <= m <= 99 ->
  truthy (JStr (hh_mm h m)) = true
  /\ time_hours (JStr (hh_mm h m)) = h
  /\ time_minutes (JStr (hh_mm h m)) = m.
Proof.
  intros Hh Hm. unfold time_hours, time_minutes, hh_mm.
  cbn [pad_digits append or_empty truthy String.eqb negb].
  rewrite split_hh_mm. cbn [map component nth_error].
  change (String (digit_char (h / 10)) (String (digit_char h) ""))
    with (pad_digits 2 h).
  change (String (digit_char (m / 10)) (String (digit_char m) ""))
    with (pad_digits 2 m).
  rewrite !Number_two_digits by lia. auto.
Qed.

Lemma expected_status_at (tz now d : Z) (t : JsVal) (c : option (Z * Z)) :
  reads_as t c -> expected_status tz now d t = status_at tz now d c.
Proof.
  unfold expected_status, status_at.
  destruct c as [[h m]|]; cbn [reads_as].
  - intros (Hh & Hm & ->).
    destruct (hh_mm_reads_back h m Hh Hm) as (-> & -> & ->). reflexivity.
  - intros ->. reflexivity.
Qed.

(** X15: the resolver on an event that is not shifted, on a host at or
    east of UTC.  For an event whose phase is not 2, whose date is a
    well-formed [YYYY-MM-DD], the calendar day [d], and whose time is
    absent or a zero-padded [HH:MM], the resolver returns the event with
    the status of the specification: [completed] when [d] is before the
    local day of [now], or is that day and the event has a time whose
    instant on that day is at most [now]; [announced] otherwise.  Its
    [original_status] is the upstream status, and nothing else changes. *)
Theorem status_closed_form (tz now d : Z) (e : Airdrop) (s : string)
        (c : option (Z * Z)) :
  0 <= tz < 1440 -> now <= 8640000000000000 -> valid_now tz now ->
  phase_is_2 e = false ->
  date e = JStr s -> String.length s = 10%nat -> parse_ymd s = Some d ->
  reads_as (time e) c ->
  resolve tz now e
  = Normal (set_status e (status_at tz now d c) (status e)).
Proof.
  intros Htz Hnow Hv Hp Hd Hl Hs Hc.
  assert (R : resolve tz now e
              = Normal (resolve_status tz (startOfToday tz now) now e e)).
  { unfold resolve, processAirdrop. now rewrite (shift_phase2_other tz e Hp). }
  rewrite R. f_equal.
  assert (Ht : truthy (date e) = true).
  { rewrite Hd. destruct s; [discriminate | reflexivity]. }
  rewrite (resolve_status_record _ _ _ _ _ Ht). f_equal.
  rewrite (resolve_expected_status tz now e _ s d Htz Hnow Hv R);
    [| rewrite (proj1 (resolve_status_date_time _ _ _ _ _)); exact Hd
     | exact Hl | exact Hs].
  rewrite (proj2 (resolve_status_date_time _ _ _ _ _)).
  now apply expected_status_at.
Qed.

Lemma status_closed_form_witness :
  resolve 480 1704081600000 event_tomorrow
  = Normal (set_status event_tomorrow
                       (status_at 480 1704081600000 19724 (Some (10, 0)))
                       (status event_tomorrow))
  /\ status_at 480 1704081600000 19724 (Some (10, 0)) = announced.
Proof.
  split; [|reflexivity].
  apply (status_closed_form 480 1704081600000 19724 event_tomorrow
                            "2024-01-02" (Some (10, 0)));
    try reflexivity; try lia.
  - eexists; reflexivity.
  - cbn [reads_as]. repeat split; lia.
Defined.

(** * The two handlers together *)

(** X16: what [/last-update] reports after a request to [/fetch-data].
    After a live refresh it reports cached data and the very timestamp
    that the answer carried as [lastUpdateTime]; after an answer from the
    cache or a failed request it reports what it reported before, and
    after an answer from the cache that is cached data. *)
Theorem last_update_after_request (tz : Z) (s : Server) (w : World) :
  match fetch_data tz s w with
  | (Ok200 _ (Some (_, ts)), s', _) => last_update s' = (Some ts, true)
  | (Ok200 _ None, s', _) =>
      last_update s' = last_update s /\ snd (last_update s) = true
  | (Error500 _, s', _) => last_update s' = last_update s
  end.
Proof.
  destruct (fetch_data_cases tz s w)
    as [(c & Hc & ->)|[(_ & data & w1 & F & ->)|(_ & e & w1 & F & ->)]].
  - split; [reflexivity|]. apply cache_hit_spec in Hc.
    destruct Hc as [Hc _]. unfold last_update. now rewrite Hc.
  - reflexivity.
  - reflexivity.
Qed.
